(** * An in-memory document store and its query evaluator

    Shallow embedding of [packages/memory-store/src/memory-store.ts]:
    the collection registry, the CRUD operations keyed by an identifier
    descriptor, the recursive expression evaluator and the result
    pipeline (filter, sort, skip, limit). *)

From Stdlib Require Import ZArith String Ascii List Lia.
From stdpp Require Import base option list gmap strings.

Local Open Scope string_scope.
Local Open Scope Z_scope.

#[local] Set Warnings "-register-all".

(** ** JavaScript data

    Documents, operands and paths are untyped in the source ([any]).
    They are modelled by one tagged union.  Values of the object kinds
    carry the identity of the object, which is what [===] and lodash's
    [pull] compare; primitive values are compared by content.  Numbers
    are the integer-valued ones (no NaN, infinities or fractions), and
    objects hold own data properties only (no functions, no inherited
    properties).  A regular expression is one without the flags [g] and
    [y]: with one of them [test] keeps [lastIndex] from call to call,
    which no function of the expression and the string gives. *)

Definition ref := nat.

Bind Scope nat_scope with ref.

Inductive value : Type :=
| VUndefined
| VNull
| VBool (b : bool)
| VNumber (n : Z)
| VString (s : string)
| VDate (r : ref) (time : Z)
| VRegExp (r : ref) (source : string)
| VArray (r : ref) (elems : list value)
| VObject (r : ref) (fields : list (string * value)).

(** [type Document = {[name: string]: any}]: a document is an object. *)
Record Document : Type := mkDocument {
  doc_ref : ref;
  doc_fields : list (string * value)
}.

Definition doc_value (d : Document) : value :=
  VObject (doc_ref d) (doc_fields d).

(** Size of a value (constructors, and characters of a string); the
    measure of the evaluator's recursion. *)
Fixpoint value_size (v : value) : nat :=
  match v with
  | VArray _ elems => S (list_sum (map value_size elems))
  | VObject _ fields => S (list_sum (map (fun kv => value_size (snd kv)) fields))
  | VString s => S (String.length s)
  | _ => 1%nat
  end.

(** [x === y]. *)
Definition strict_equal (x y : value) : bool :=
  match x, y with
  | VUndefined, VUndefined => true
  | VNull, VNull => true
  | VBool a, VBool b => Bool.eqb a b
  | VNumber a, VNumber b => Z.eqb a b
  | VString a, VString b => String.eqb a b
  | VDate r _, VDate r' _ => Nat.eqb r r'
  | VRegExp r _, VRegExp r' _ => Nat.eqb r r'
  | VArray r _, VArray r' _ => Nat.eqb r r'
  | VObject r _, VObject r' _ => Nat.eqb r r'
  | _, _ => false
  end.

(** SameValueZero differs from [===] on NaN only, which is not a value
    of the model. *)
Definition same_value_zero (x y : value) : bool := strict_equal x y.

(** [Array.isArray(v)]. *)
Definition is_array (v : value) : bool :=
  match v with
  | VArray _ _ => true
  | _ => false
  end.


(** Own property lookup, first entry with the key. *)
Fixpoint own_property (fields : list (string * value)) (name : string) : value :=
  match fields with
  | [] => VUndefined
  | (k, v) :: rest => if String.eqb k name then v else own_property rest name
  end.

Definition has_own_property (fields : list (string * value)) (name : string) : bool :=
  existsb (fun kv => String.eqb (fst kv) name) fields.

(** [document[name]] for a document of a collection: the own property.
    For a name that [Object.prototype] defines and the document does
    not, the code reads the inherited function, which is no value of
    the model and is [===] to none; [doc_get] gives undefined there, so
    that the two differ on a comparison with undefined (see
    [inherits]). *)
Definition doc_get (d : Document) (name : string) : value :=
  own_property (doc_fields d) name.

(** ** Outcomes

    A call returns, throws, or (in the model only) exhausts the fuel of
    the recursive evaluator. *)

Inductive error : Type :=
| UnsupportedOperator (operator path : value)
    (* new Error(`A query contains an operator that is not supported
       (operator: '${operator}', path: '${path}')`) *)
| TypeError.
    (* raised by the JavaScript runtime *)

Inductive outcome (A : Type) : Type :=
| Ret (a : A)
| Throw (e : error)
| OutOfFuel.

Arguments Ret {A} a.
Arguments Throw {A} e.
Arguments OutOfFuel {A}.

Definition bind {A B : Type} (m : outcome A) (k : A -> outcome B) : outcome B :=
  match m with
  | Ret a => k a
  | Throw e => Throw e
  | OutOfFuel => OutOfFuel
  end.

Notation "'let*' x ':=' m 'in' k" := (bind m (fun x => k))
  (at level 10, x pattern, m at level 100, k at level 200).

Definition returns {A : Type} (m : outcome A) : Prop := exists a, m = Ret a.

Definition throws {A : Type} (m : outcome A) : Prop := exists e, m = Throw e.

Definition finishes {A : Type} (m : outcome A) : Prop := m <> OutOfFuel.

(** ** Array and string built-ins *)

(** [Array.prototype.every] with a callback that may throw. *)
Fixpoint array_every {A : Type} (f : A -> outcome bool) (l : list A) : outcome bool :=
  match l with
  | [] => Ret true
  | x :: rest => let* b := f x in if b then array_every f rest else Ret false
  end.

(** [Array.prototype.some]. *)
Fixpoint array_some {A : Type} (f : A -> outcome bool) (l : list A) : outcome bool :=
  match l with
  | [] => Ret false
  | x :: rest => let* b := f x in if b then Ret true else array_some f rest
  end.

(** [Array.prototype.filter]. *)
Fixpoint array_filter {A : Type} (f : A -> outcome bool) (l : list A) : outcome (list A) :=
  match l with
  | [] => Ret []
  | x :: rest =>
      let* b := f x in
      let* kept := array_filter f rest in
      Ret (if b then x :: kept else kept)
  end.

(** [Array.prototype.find]. *)
Fixpoint array_find {A : Type} (f : A -> bool) (l : list A) : option A :=
  match l with
  | [] => None
  | x :: rest => if f x then Some x else array_find f rest
  end.

(** Relative index of [Array.prototype.slice]. *)
Definition relative_index (len k : Z) : Z :=
  if k <? 0 then Z.max (len + k) 0 else Z.min k len.

(** [l.slice(start, end)]; [end] may be omitted. *)
Definition array_slice {A : Type} (l : list A) (start : Z) (stop : option Z) : list A :=
  let len := Z.of_nat (length l) in
  let k := relative_index len start in
  let final := match stop with
               | None => len
               | Some e => relative_index len e
               end in
  take (Z.to_nat (final - k)) (drop (Z.to_nat k) l).

Fixpoint string_starts_with (s prefix : string) : bool :=
  match prefix, s with
  | EmptyString, _ => true
  | String p prefix', String c s' => Ascii.eqb p c && string_starts_with s' prefix'
  | String _ _, EmptyString => false
  end.

Fixpoint string_includes (s sub : string) : bool :=
  string_starts_with s sub ||
  match s with
  | EmptyString => false
  | String _ s' => string_includes s' sub
  end.

Definition string_ends_with (s suffix : string) : bool :=
  string_starts_with (String.rev s) (String.rev suffix).

Definition ascii_to_lower (c : ascii) : ascii :=
  let n := nat_of_ascii c in
  if ((65 <=? n) && (n <=? 90))%nat then ascii_of_nat (n + 32) else c.

(** [s.toLowerCase()] on the ASCII letters. *)
Fixpoint to_lower_case (s : string) : string :=
  match s with
  | EmptyString => EmptyString
  | String c s' => String (ascii_to_lower c) (to_lower_case s')
  end.

(** ** The host

    Functions of the libraries the store imports (lodash's [get],
    sort-on's [sortOn]) and abstract operations of the language
    (IsLessThan, ToString, [RegExp.prototype.test]).  The store only
    calls them; every result below holds for any pure implementation
    of them. *)

Class Host : Type := {
  get : value -> value -> value;
  sortOn : list Document -> list string -> list Document;
  is_less_than : value -> value -> option bool;
  to_string : value -> string;
  regexp_test : string -> string -> bool
}.

Section Evaluator.

Context {host : Host}.

(** [x < y], [x > y], [x <= y], [x >= y] from IsLessThan, whose
    result [None] stands for undefined. *)
Definition js_lt (x y : value) : bool :=
  match is_less_than x y with Some b => b | None => false end.

Definition js_gt (x y : value) : bool :=
  match is_less_than y x with Some b => b | None => false end.

Definition js_le (x y : value) : bool :=
  match is_less_than y x with Some b => negb b | None => false end.

Definition js_ge (x y : value) : bool :=
  match is_less_than x y with Some b => negb b | None => false end.

(** [v?.valueOf()].  An object whose own property [valueOf] shadows the
    inherited method holds data there, which cannot be called. *)
Definition optional_value_of (v : value) : outcome value :=
  match v with
  | VUndefined | VNull => Ret VUndefined
  | VDate _ time => Ret (VNumber time)
  | VObject _ fields =>
      if has_own_property fields "valueOf" then Throw TypeError else Ret v
  | _ => Ret v
  end.

(** [s.includes(x)], [s.startsWith(x)], [s.endsWith(x)] on a string
    [s]: a regular expression is refused, anything else is converted. *)
Definition string_search (test : string -> string -> bool) (s : string) (x : value)
  : outcome bool :=
  match x with
  | VRegExp _ _ => Throw TypeError
  | _ => Ret (test s (to_string x))
  end.

(** [receiver.includes(x)]. *)
Definition js_includes (receiver x : value) : outcome bool :=
  match receiver with
  | VArray _ elems => Ret (existsb (same_value_zero x) elems)
  | VString s => string_search string_includes s x
  | _ => Throw TypeError
  end.

(** [receiver.test(s)], for a regular expression that keeps no state
    (see [keeps_last_index]). *)
Definition js_test (receiver : value) (s : string) : outcome bool :=
  match receiver with
  | VRegExp _ source => Ret (regexp_test source s)
  | _ => Throw TypeError
  end.

(** [v.length]. *)
Definition js_length (v : value) : outcome value :=
  match v with
  | VUndefined | VNull => Throw TypeError
  | VArray _ elems => Ret (VNumber (Z.of_nat (length elems)))
  | VString s => Ret (VNumber (Z.of_nat (String.length s)))
  | VObject _ fields => Ret (own_property fields "length")
  | _ => Ret VUndefined
  end.

(** The values an iteration of [v] yields: the elements of an array,
    the characters of a string; nothing else of the model is iterable. *)
Definition iterate (v : value) : outcome (list value) :=
  match v with
  | VArray _ elems => Ret elems
  | VString s => Ret (map (fun c => VString (String c EmptyString)) (list_ascii_of_string s))
  | _ => Throw TypeError
  end.

(** [const [path, operator, operand] = item]. *)
Definition destructure_expression (item : value) : outcome (value * value * value) :=
  let* elems := iterate item in
  Ret (nth 0 elems VUndefined, nth 1 elems VUndefined, nth 2 elems VUndefined).

Definition operators : list string :=
  [ "$equal"; "$notEqual"; "$greaterThan"; "$greaterThanOrEqual"; "$lessThan";
    "$lessThanOrEqual"; "$any"; "$includes"; "$startsWith"; "$endsWith";
    "$matches"; "$some"; "$every"; "$length"; "$not"; "$and"; "$or"; "$nor" ].

(** [operator === name]. *)
Definition operator_is (operator : value) (name : string) : bool :=
  strict_equal operator (VString name).

Definition is_supported (operator : value) : bool :=
  existsb (operator_is operator) operators.

(** [evaluateExpression(attributeValue, operator, operand, {path})].
    [recur document expressions] stands for the call
    [documentIsMatchingExpressions(document, expressions)]. *)
Definition evaluateExpression (recur : value -> value -> outcome bool)
    (attributeValue operator operand path : value) : outcome bool :=
  (* --- Basic operators --- *)
  if operator_is operator "$equal" then
    let* a := optional_value_of attributeValue in
    let* b := optional_value_of operand in
    Ret (strict_equal a b)
  else if operator_is operator "$notEqual" then
    let* a := optional_value_of attributeValue in
    let* b := optional_value_of operand in
    Ret (negb (strict_equal a b))
  else if operator_is operator "$greaterThan" then
    Ret (js_gt attributeValue operand)
  else if operator_is operator "$greaterThanOrEqual" then
    Ret (js_ge attributeValue operand)
  else if operator_is operator "$lessThan" then
    Ret (js_lt attributeValue operand)
  else if operator_is operator "$lessThanOrEqual" then
    Ret (js_le attributeValue operand)
  else if operator_is operator "$any" then
    js_includes operand attributeValue
  (* --- String operators --- *)
  else if operator_is operator "$includes" then
    match attributeValue with
    | VString s => string_search string_includes s operand
    | _ => Ret false
    end
  else if operator_is operator "$startsWith" then
    match attributeValue with
    | VString s => string_search string_starts_with s operand
    | _ => Ret false
    end
  else if operator_is operator "$endsWith" then
    match attributeValue with
    | VString s => string_search string_ends_with s operand
    | _ => Ret false
    end
  else if operator_is operator "$matches" then
    match attributeValue with
    | VString s => js_test operand s
    | _ => Ret false
    end
  (* --- Array operators --- *)
  else if operator_is operator "$some" then
    match attributeValue with
    | VArray _ subdocuments =>
        array_some (fun subdocument => recur subdocument operand) subdocuments
    | _ => Ret false
    end
  else if operator_is operator "$every" then
    match attributeValue with
    | VArray _ subdocuments =>
        array_every (fun subdocument => recur subdocument operand) subdocuments
    | _ => Ret false
    end
  else if operator_is operator "$length" then
    match attributeValue with
    | VArray _ elems => Ret (strict_equal (VNumber (Z.of_nat (length elems))) operand)
    | _ => Ret false
    end
  (* --- Logical operators --- *)
  else if operator_is operator "$not" then
    let* b := recur attributeValue operand in
    Ret (negb b)
  else if operator_is operator "$and" then
    match operand with
    | VArray _ andSubexpressions =>
        array_every (fun subexpressions => recur attributeValue subexpressions)
                    andSubexpressions
    | _ => Throw TypeError
    end
  else if operator_is operator "$or" then
    match operand with
    | VArray _ orSubexpressions =>
        array_some (fun subexpressions => recur attributeValue subexpressions)
                   orSubexpressions
    | _ => Throw TypeError
    end
  else if operator_is operator "$nor" then
    match operand with
    | VArray _ norSubexpressions =>
        let* b := array_some (fun subexpressions => recur attributeValue subexpressions)
                             norSubexpressions in
        Ret (negb b)
    | _ => Throw TypeError
    end
  else
    Throw (UnsupportedOperator operator path).

(** The attribute an expression is about:
    [path !== '' ? get(document, path) : document]. *)
Definition attribute_value (document path : value) : value :=
  if negb (strict_equal path (VString "")) then get document path else document.

(** One turn of the loop of [documentIsMatchingExpressions]. *)
Definition match_expression (recur : value -> value -> outcome bool)
    (document item : value) : outcome bool :=
  let* expression := destructure_expression item in
  let '(path, operator, operand) := expression in
  evaluateExpression recur (attribute_value document path) operator operand path.

(** [for (const item of items) { if (test(item) === false) return false; }
     return true;] *)
Fixpoint for_each_expression (test : value -> outcome bool) (items : list value)
  : outcome bool :=
  match items with
  | [] => Ret true
  | item :: rest =>
      let* b := test item in
      if b then for_each_expression test rest else Ret false
  end.

(** The body of [documentIsMatchingExpressions(document, expressions)]. *)
Definition matching_body (recur : value -> value -> outcome bool)
    (document expressions : value) : outcome bool :=
  let* items := iterate expressions in
  for_each_expression (match_expression recur document) items.

(** [documentIsMatchingExpressions(document, expressions)], the depth
    of the calls bounded by [fuel]. *)
Fixpoint documentIsMatchingExpressions_fuel (fuel : nat) (document expressions : value)
  : outcome bool :=
  match fuel with
  | O => OutOfFuel
  | S fuel' => matching_body (documentIsMatchingExpressions_fuel fuel') document expressions
  end.

Definition documentIsMatchingExpressions (document expressions : value) : outcome bool :=
  documentIsMatchingExpressions_fuel (value_size expressions) document expressions.

(** The recursive calls a call of [documentIsMatchingExpressions] can
    make, one rule for each call site of [evaluateExpression]. *)
Inductive subcall : value * value -> value * value -> Prop :=
| subcall_some document expressions items item path operand r subdocuments subdocument :
    iterate expressions = Ret items -> In item items ->
    destructure_expression item = Ret (path, VString "$some", operand) ->
    attribute_value document path = VArray r subdocuments ->
    In subdocument subdocuments ->
    subcall (document, expressions) (subdocument, operand)
| subcall_every document expressions items item path operand r subdocuments subdocument :
    iterate expressions = Ret items -> In item items ->
    destructure_expression item = Ret (path, VString "$every", operand) ->
    attribute_value document path = VArray r subdocuments ->
    In subdocument subdocuments ->
    subcall (document, expressions) (subdocument, operand)
| subcall_not document expressions items item path operand :
    iterate expressions = Ret items -> In item items ->
    destructure_expression item = Ret (path, VString "$not", operand) ->
    subcall (document, expressions) (attribute_value document path, operand)
| subcall_logical document expressions items item path operator r lists subexpressions :
    iterate expressions = Ret items -> In item items ->
    destructure_expression item = Ret (path, VString operator, VArray r lists) ->
    In operator ["$and"; "$or"; "$nor"] ->
    In subexpressions lists ->
    subcall (document, expressions) (attribute_value document path, subexpressions).

End Evaluator.

(** ** Result pipeline *)

(** [type SortDescriptor = {[name: string]: SortDirection}], as the
    entries [Object.entries] lists. *)
Definition SortDescriptor := list (string * string).

Section Pipeline.

Context {host : Host}.

Definition filterDocuments (documents : list Document) (expressions : value)
  : outcome (list Document) :=
  let* len := js_length expressions in
  if strict_equal len (VNumber 0) then
    Ret documents (* Optimization *)
  else
    array_filter
      (fun document => documentIsMatchingExpressions (doc_value document) expressions)
      documents.

Definition sort_property (entry : string * string) : string :=
  let '(name, direction) := entry in
  if String.eqb (to_lower_case direction) "desc" then "-" ++ name else name.

Definition sortDocuments (documents : list Document) (sort : option SortDescriptor)
  : list Document :=
  match sort with
  | None => documents
  | Some entries => sortOn documents (map sort_property entries)
  end.

Definition skipDocuments (documents : list Document) (skip : option Z) : list Document :=
  match skip with
  | None => documents
  | Some n => array_slice documents n None
  end.

Definition limitDocuments (documents : list Document) (limit : option Z) : list Document :=
  match limit with
  | None => documents
  | Some m => array_slice documents 0 (Some m)
  end.

Definition _findDocuments (collection : list Document) (expressions : value)
    (sort : option SortDescriptor) (skip limit : option Z) : outcome (list Document) :=
  let* documents := filterDocuments collection expressions in
  let documents := sortDocuments documents sort in
  let documents := skipDocuments documents skip in
  let documents := limitDocuments documents limit in
  Ret documents.

End Pipeline.

(** ** The store

    [type CollectionMap = {[name: string]: Collection}]: the registry
    maps the names of the registered collections to their documents.
    An operation takes the store and gives back its outcome with the
    store it leaves; what it did to the store before throwing stays. *)

Abbreviation Collection := (list Document).

Abbreviation CollectionMap := (gmap string (list Document)).

(** [Object.entries(identifierDescriptor)]. *)
Definition IdentifierDescriptor := list (string * value).

(** [_getCollection(name)], at a name that is registered or that the
    registry does not inherit from [Object.prototype]; the function at
    every name is [Prototype._getCollection] below. *)
Definition _getCollection (name : string) (collections : CollectionMap)
  : Collection * CollectionMap :=
  match collections !! name with
  | Some collection => (collection, collections)
  | None => ([], <[name := []]> collections)
  end.

Definition _readDocument (collection : Collection) (identifierDescriptor : IdentifierDescriptor)
  : outcome (option Document) :=
  match identifierDescriptor with
  | [] => Throw TypeError
  | (identifierName, identifierValue) :: _ =>
      Ret (array_find
             (fun document => strict_equal (doc_get document identifierName) identifierValue)
             collection)
  end.

(** lodash's [pull(array, value)]: every element that is the same value
    (SameValueZero) is removed, the others stay in place. *)
Definition pull (collection : Collection) (document : Document) : Collection :=
  List.filter
    (fun d => negb (same_value_zero (doc_value d) (doc_value document)))
    collection.

Definition createDocument (collectionName : string)
    (identifierDescriptor : IdentifierDescriptor) (document : Document)
    (collections : CollectionMap) : outcome bool * CollectionMap :=
  let '(collection, collections) := _getCollection collectionName collections in
  match _readDocument collection identifierDescriptor with
  | Ret (Some _) => (Ret false, collections)
  | Ret None => (Ret true, <[collectionName := (collection ++ [document])%list]> collections)
  | Throw e => (Throw e, collections)
  | OutOfFuel => (OutOfFuel, collections)
  end.

Definition readDocument (collectionName : string)
    (identifierDescriptor : IdentifierDescriptor)
    (collections : CollectionMap) : outcome (option Document) * CollectionMap :=
  let '(collection, collections) := _getCollection collectionName collections in
  (_readDocument collection identifierDescriptor, collections).

Definition deleteDocument (collectionName : string)
    (identifierDescriptor : IdentifierDescriptor)
    (collections : CollectionMap) : outcome bool * CollectionMap :=
  let '(collection, collections) := _getCollection collectionName collections in
  match _readDocument collection identifierDescriptor with
  | Ret None => (Ret false, collections)
  | Ret (Some document) =>
      (Ret true, <[collectionName := pull collection document]> collections)
  | Throw e => (Throw e, collections)
  | OutOfFuel => (OutOfFuel, collections)
  end.

Section Queries.

Context {host : Host}.

Definition findDocuments (collectionName : string) (expressions : value)
    (sort : option SortDescriptor) (skip limit : option Z)
    (collections : CollectionMap) : outcome (list Document) * CollectionMap :=
  let '(collection, collections) := _getCollection collectionName collections in
  (_findDocuments collection expressions sort skip limit, collections).

Definition countDocuments (collectionName : string) (expressions : value)
    (collections : CollectionMap) : outcome Z * CollectionMap :=
  let '(collection, collections) := _getCollection collectionName collections in
  (let* documents := _findDocuments collection expressions None None None in
   Ret (Z.of_nat (length documents)),
   collections).

End Queries.

(** The documents of a collection as the operations see them: those
    registered under the name, none when the name is not registered. *)
Definition documents_of (collections : CollectionMap) (name : string) : Collection :=
  default [] (collections !! name).

(** ** What the registry inherits

    [_collections] is made by an object literal unless the caller
    gives another object, and [this._collections[name]] also finds what
    such an object inherits from [Object.prototype]: a function, or the
    prototype itself for [__proto__], never undefined.  [_getCollection]
    above is the function at the names that are registered or not
    inherited; [Prototype._getCollection] is the function at every
    name. *)

Definition object_prototype_names : list string :=
  [ "constructor"; "__defineGetter__"; "__defineSetter__"; "hasOwnProperty";
    "__lookupGetter__"; "__lookupSetter__"; "isPrototypeOf"; "propertyIsEnumerable";
    "toString"; "valueOf"; "__proto__"; "toLocaleString" ].

Definition inherits (name : string) : bool :=
  existsb (String.eqb name) object_prototype_names.

Module Prototype.

(** What [this._collections[name]] is. *)
Inductive entry : Type :=
| Own (collection : list Document)
| Inherited
| NotDefined.

Definition read (collections : CollectionMap) (name : string) : entry :=
  match collections !! name with
  | Some collection => Own collection
  | None => if inherits name then Inherited else NotDefined
  end.

(** [collection.find(...)] after the destructuring of the descriptor:
    what is inherited has no method [find]. *)
Definition _readDocument (collection : entry) (identifierDescriptor : IdentifierDescriptor)
  : outcome (option Document) :=
  match collection with
  | Own documents => _readDocument documents identifierDescriptor
  | _ => Throw TypeError
  end.

Definition _getCollection (name : string) (collections : CollectionMap)
  : entry * CollectionMap :=
  match read collections name with
  | NotDefined => (Own [], <[name := []]> collections)
  | collection => (collection, collections)
  end.

Definition readDocument (collectionName : string)
    (identifierDescriptor : IdentifierDescriptor)
    (collections : CollectionMap) : outcome (option Document) * CollectionMap :=
  let '(collection, collections) := _getCollection collectionName collections in
  (_readDocument collection identifierDescriptor, collections).

End Prototype.

(** ** Regular expressions that keep state

    Whether the regular expression of an identity has the flag [g] or
    [y], and so keeps [lastIndex] between two calls of [test]. *)

Class RegExpFlags : Type := {
  keeps_last_index : ref -> bool
}.

(** No regular expression in the value keeps state. *)
Fixpoint stateless {flags : RegExpFlags} (v : value) : bool :=
  match v with
  | VRegExp r _ => negb (keeps_last_index r)
  | VArray _ elems => forallb stateless elems
  | VObject _ fields => forallb (fun kv => stateless (snd kv)) fields
  | _ => true
  end.

(** ** Updating by identifier *)

(** ToBoolean, the test of [if (value)]. *)
Definition to_boolean (v : value) : bool :=
  match v with
  | VUndefined | VNull => false
  | VBool b => b
  | VNumber n => negb (Z.eqb n 0)
  | VString s => negb (String.eqb s "")
  | _ => true
  end.

(** [documentPatch]: the entries of [$set] and of [$unset], as
    [Object.entries] lists them; each of the two may be absent. *)
Record DocumentPatch : Type := mkDocumentPatch {
  patch_set : option (list (string * value));
  patch_unset : option (list (string * value))
}.

(** lodash's [set(object, path, value)] and [unset(object, path)]
    change the object in place: they are given by the properties they
    leave in a document, whose identity stays.  Documents are taken not
    to share the objects nested in them, and [updateDocument] below
    gives the collection it is called for: an object that another
    collection holds as well shows the change there too. *)
Class Lodash : Type := {
  set : list (string * value) -> string -> value -> list (string * value);
  unset : list (string * value) -> string -> list (string * value)
}.

Section Update.

Context {lodash : Lodash}.

(** [for (const [path, value] of Object.entries($set)) set(existingDocument, path, value)] *)
Definition apply_set (fields : list (string * value)) (entries : list (string * value))
  : list (string * value) :=
  fold_left (fun fields entry => set fields (fst entry) (snd entry)) entries fields.

(** [for (const [path, value] of Object.entries($unset))
       if (value) unset(existingDocument, path)] *)
Definition apply_unset (fields : list (string * value)) (entries : list (string * value))
  : list (string * value) :=
  fold_left
    (fun fields entry => if to_boolean (snd entry) then unset fields (fst entry) else fields)
    entries fields.

(** The document after [$set], then [$unset]. *)
Definition apply_patch (existingDocument : Document) (documentPatch : DocumentPatch)
  : Document :=
  let fields := doc_fields existingDocument in
  let fields :=
    match patch_set documentPatch with
    | Some entries => apply_set fields entries
    | None => fields
    end in
  let fields :=
    match patch_unset documentPatch with
    | Some entries => apply_unset fields entries
    | None => fields
    end in
  mkDocument (doc_ref existingDocument) fields.

(** The collection once one of its objects has changed in place: every
    entry that holds the object shows the change. *)
Definition changed_in_place (collection : Collection) (changed : Document) : Collection :=
  map (fun d => if same_value_zero (doc_value d) (doc_value changed) then changed else d)
      collection.

Definition updateDocument (collectionName : string)
    (identifierDescriptor : IdentifierDescriptor) (documentPatch : DocumentPatch)
    (collections : CollectionMap) : outcome bool * CollectionMap :=
  let '(collection, collections) := _getCollection collectionName collections in
  match _readDocument collection identifierDescriptor with
  | Ret None => (Ret false, collections)
  | Ret (Some existingDocument) =>
      (Ret true,
       <[collectionName :=
           changed_in_place collection (apply_patch existingDocument documentPatch)]>
         collections)
  | Throw e => (Throw e, collections)
  | OutOfFuel => (OutOfFuel, collections)
  end.

End Update.

(** [new MemoryStore(rootComponent, {initialCollections})]: the registry
    a new store starts with. *)
Definition MemoryStore (initialCollections : option CollectionMap) : CollectionMap :=
  default ∅ initialCollections.

(** Whether an evaluation says that the document matches. *)
Definition is_match (result : outcome bool) : bool :=
  match result with
  | Ret true => true
  | _ => false
  end.

(** ** Identifiers of the model layer ([packages/model/src/identity.js]) *)

(** [typeof v]. *)
Definition typeof (v : value) : string :=
  match v with
  | VUndefined => "undefined"
  | VBool _ => "boolean"
  | VNumber _ => "number"
  | VString _ => "string"
  | _ => "object"
  end.

(** [validateId(id)]: the message of the error it throws, if it throws. *)
Definition validateId (id : value) : option string :=
  if negb (String.eqb (typeof id) "string") then
    Some ("'id' must be a string (provided: " ++ typeof id ++ ")")
  else if strict_equal id (VString "") then
    Some "'id' cannot be empty"
  else
    None.

(** ** Instances of an entity class (the class [Entity])

    A class keeps the instances it has seen in a [Map] of its own, from
    the [_id] of an instance to the instance; the map is made at the
    first use.  A [Map] is given by its entries in insertion order, its
    keys compared by SameValueZero. *)

Abbreviation InstanceMap := (list (value * value)).

(** [map.get(key)]. *)
Fixpoint map_get (entries : InstanceMap) (key : value) : value :=
  match entries with
  | [] => VUndefined
  | (k, v) :: rest => if same_value_zero k key then v else map_get rest key
  end.

(** [map.set(key, v)]. *)
Fixpoint map_set (entries : InstanceMap) (key v : value) : InstanceMap :=
  match entries with
  | [] => [(key, v)]
  | (k, x) :: rest =>
      if same_value_zero k key then (k, v) :: rest else (k, x) :: map_set rest key v
  end.

(** [object?._id]. *)
Definition optional_id (object : value) : value :=
  match object with
  | VObject _ fields => own_property fields "_id"
  | _ => VUndefined
  end.

(** [__getInstances()]; the state of the class is its own property
    [__instances], absent at first. *)
Definition __getInstances (instances : option InstanceMap)
  : InstanceMap * option InstanceMap :=
  match instances with
  | Some entries => (entries, instances)
  | None => ([], Some [])
  end.

(** [$getInstance(object)]. *)
Definition getInstance (object : value) (instances : option InstanceMap)
  : value * option InstanceMap :=
  let id := optional_id object in
  if strict_equal id VUndefined then (VUndefined, instances)
  else
    let '(entries, instances) := __getInstances instances in
    (map_get entries id, instances).

(** [$setInstance(instance)]. *)
Definition setInstance (instance : value) (instances : option InstanceMap)
  : option InstanceMap :=
  let id := optional_id instance in
  if strict_equal id VUndefined then instances
  else
    let '(entries, _) := __getInstances instances in
    Some (map_set entries id instance).

(** ** The pipeline in the words of the specification

    "[skip] drops the first N results; [limit] truncates to the first M
    results after skip is applied; both absent means return
    everything." *)



(** One object for each identity: two entries of a collection that
    carry the same identity are the same document. *)
Definition consistent (collection : Collection) : Prop :=
  forall x y, In x collection -> In y collection -> doc_ref x = doc_ref y -> x = y.

(** ** A host for closed examples

    Paths are keys separated by dots, an index into an array written
    as a key; numbers compare with numbers and strings with strings,
    by their characters; sorting is stable; a regular expression
    matches the strings that contain its source. *)

Fixpoint split_path (s : string) (current : string) : list string :=
  match s with
  | EmptyString => [String.rev current]
  | String c s' =>
      if Ascii.eqb c "."%char then String.rev current :: split_path s' EmptyString
      else split_path s' (String c current)
  end.

Fixpoint parse_index (s : string) (acc : nat) : option nat :=
  match s with
  | EmptyString => Some acc
  | String c s' =>
      match Ascii.is_nat c with
      | Some d => parse_index s' (10 * acc + d)
      | None => None
      end
  end.

Definition get_key (v : value) (key : string) : value :=
  match v with
  | VObject _ fields => own_property fields key
  | VArray _ elems =>
      match parse_index key 0 with
      | Some i => nth i elems VUndefined
      | None => VUndefined
      end
  | _ => VUndefined
  end.

Definition plain_get (object path : value) : value :=
  match path with
  | VString s => fold_left get_key (split_path s EmptyString) object
  | _ => VUndefined
  end.

Definition plain_is_less_than (x y : value) : option bool :=
  match x, y with
  | VNumber a, VNumber b => Some (a <? b)
  | VString a, VString b => Some (String.ltb a b)
  | _, _ => None
  end.

Definition plain_to_string (v : value) : string :=
  match v with
  | VUndefined => "undefined"
  | VNull => "null"
  | VBool true => "true"
  | VBool false => "false"
  | VString s => s
  | _ => "[object Object]"
  end.

(** Order of two documents on one property of [sortOn]; a leading
    [-] reverses it. *)
Definition property_compare (property : string) (a b : Document) : comparison :=
  let descending := string_starts_with property "-" in
  let name :=
    if descending then String.substring 1 (String.length property - 1) property
    else property in
  let order :=
    match plain_get (doc_value a) (VString name), plain_get (doc_value b) (VString name) with
    | VNumber m, VNumber n => Z.compare m n
    | VString s, VString t => String.compare s t
    | _, _ => Eq
    end in
  if descending then CompOpp order else order.

Fixpoint properties_compare (properties : list string) (a b : Document) : comparison :=
  match properties with
  | [] => Eq
  | property :: rest =>
      match property_compare property a b with
      | Eq => properties_compare rest a b
      | order => order
      end
  end.

Fixpoint insert_sorted (properties : list string) (d : Document) (sorted : list Document)
  : list Document :=
  match sorted with
  | [] => [d]
  | x :: rest =>
      match properties_compare properties d x with
      | Gt => x :: insert_sorted properties d rest
      | _ => d :: sorted
      end
  end.

(** A stable insertion sort. *)
Definition plain_sortOn (documents : list Document) (properties : list string)
  : list Document :=
  fold_right (insert_sorted properties) [] documents.

Definition plain_host : Host := {|
  get := plain_get;
  sortOn := plain_sortOn;
  is_less_than := plain_is_less_than;
  to_string := plain_to_string;
  regexp_test := fun source s => string_includes s source
|}.

(** [set] and [unset] on the keys of the document itself. *)
Fixpoint set_key (fields : list (string * value)) (key : string) (v : value)
  : list (string * value) :=
  match fields with
  | [] => [(key, v)]
  | (k, x) :: rest =>
      if String.eqb k key then (k, v) :: rest else (k, x) :: set_key rest key v
  end.

Definition unset_key (fields : list (string * value)) (key : string)
  : list (string * value) :=
  List.filter (fun kv => negb (String.eqb (fst kv) key)) fields.

Definition plain_lodash : Lodash := {| set := set_key; unset := unset_key |}.

(** Regular expressions without flags. *)
Definition no_flags : RegExpFlags := {| keeps_last_index := fun _ => false |}.

(** ** Sample data *)

(** The expression [[path, operator, operand]], an array of its own. *)
Definition expression (r : ref) (path operator : string) (operand : value) : value :=
  VArray r [VString path; VString operator; operand].

(** [{tags: ["x", "y"]}], [{tags: []}] and [{tags: "not-an-array"}]. *)
Definition tagged : Document :=
  mkDocument 1 [("tags", VArray 2 [VString "x"; VString "y"])].

Definition untagged : Document := mkDocument 3 [("tags", VArray 4 [])].

Definition mistagged : Document := mkDocument 5 [("tags", VString "not-an-array")].

(** [[["", "$equal", "x"]]]. *)
Definition is_x : value := VArray 10 [expression 11 "" "$equal" (VString "x")].

(** [[["tags", "$some", [["", "$equal", "x"]]]]] and the same with
    [$every]. *)
Definition some_tag_is_x : value := VArray 12 [expression 13 "tags" "$some" is_x].

Definition every_tag_is_x : value := VArray 14 [expression 15 "tags" "$every" is_x].

(** [["score", "$greaterThan", 2]] and an expression whose operator is
    not one of the store's. *)
Definition score_above_2 : value := expression 16 "score" "$greaterThan" (VNumber 2).

Definition score_about_5 : value := expression 17 "score" "$about" (VNumber 5).

(** [{id: "1", score: 3}], [{id: "2", score: 1}], [{id: "3", score: 2}]. *)
Definition scored (r : ref) (id : string) (score : Z) : Document :=
  mkDocument r [("id", VString id); ("score", VNumber score)].

Definition scores : Collection := [scored 21 "1" 3; scored 22 "2" 1; scored 23 "3" 2].

(** A store whose collection [scores] holds them. *)
Definition score_store : CollectionMap := <["scores" := scores]> ∅.


(** * Properties *)

(** ** The host of the examples at work *)

Example scores_sorted :
  fst (@findDocuments plain_host "scores" (VArray 18 []) (Some [("score", "asc")])
         None None score_store)
  = Ret [scored 22 "2" 1; scored 23 "3" 2; scored 21 "1" 3].
Proof. vm_compute. reflexivity. Qed.

Example scores_sorted_descending :
  fst (@findDocuments plain_host "scores" (VArray 18 []) (Some [("score", "DESC")])
         None None score_store)
  = Ret [scored 21 "1" 3; scored 23 "3" 2; scored 22 "2" 1].
Proof. vm_compute. reflexivity. Qed.

Example some_tag_matches :
  @documentIsMatchingExpressions plain_host (doc_value tagged) some_tag_is_x = Ret true
  /\ @documentIsMatchingExpressions plain_host (doc_value untagged) some_tag_is_x = Ret false
  /\ @documentIsMatchingExpressions plain_host (doc_value mistagged) some_tag_is_x
     = Ret false.
Proof. repeat split; vm_compute; reflexivity. Qed.

Example plain_get_nested :
  plain_get (VObject 1 [("a", VArray 2 [VNumber 7; VObject 3 [("b", VString "x")]])])
            (VString "a.1.b")
  = VString "x".
Proof. reflexivity. Qed.

(** ** Outcomes and the array built-ins *)

Lemma bind_finishes {A B : Type} (m : outcome A) (k : A -> outcome B) :
  finishes m -> (forall a, m = Ret a -> finishes (k a)) -> finishes (bind m k).
Proof.
  unfold finishes. destruct m as [a|e|]; simpl; intros Hm Hk.
  - apply Hk. reflexivity.
  - discriminate.
  - congruence.
Qed.

Lemma bind_ext {A B : Type} (m : outcome A) (k k' : A -> outcome B) :
  (forall a, m = Ret a -> k a = k' a) -> bind m k = bind m k'.
Proof. destruct m; simpl; auto. Qed.

Lemma array_some_ext {A : Type} (f g : A -> outcome bool) (l : list A) :
  (forall x, In x l -> f x = g x) -> array_some f l = array_some g l.
Proof.
  induction l as [|x l IH]; simpl; intros H; [reflexivity|].
  rewrite (H x) by auto. rewrite IH by auto. reflexivity.
Qed.

Lemma array_every_ext {A : Type} (f g : A -> outcome bool) (l : list A) :
  (forall x, In x l -> f x = g x) -> array_every f l = array_every g l.
Proof.
  induction l as [|x l IH]; simpl; intros H; [reflexivity|].
  rewrite (H x) by auto. rewrite IH by auto. reflexivity.
Qed.

Lemma array_filter_ext {A : Type} (f g : A -> outcome bool) (l : list A) :
  (forall x, In x l -> f x = g x) -> array_filter f l = array_filter g l.
Proof.
  induction l as [|x l IH]; simpl; intros H; [reflexivity|].
  rewrite (H x) by auto. rewrite IH by auto. reflexivity.
Qed.

Lemma array_some_finishes {A : Type} (f : A -> outcome bool) (l : list A) :
  (forall x, In x l -> finishes (f x)) -> finishes (array_some f l).
Proof.
  induction l as [|x l IH]; simpl; intros H; [discriminate|].
  apply bind_finishes; [auto|]. intros [] _; [discriminate|auto].
Qed.

Lemma array_every_finishes {A : Type} (f : A -> outcome bool) (l : list A) :
  (forall x, In x l -> finishes (f x)) -> finishes (array_every f l).
Proof.
  induction l as [|x l IH]; simpl; intros H; [discriminate|].
  apply bind_finishes; [auto|]. intros [] _; [auto|discriminate].
Qed.

Lemma array_filter_finishes {A : Type} (f : A -> outcome bool) (l : list A) :
  (forall x, In x l -> finishes (f x)) -> finishes (array_filter f l).
Proof.
  induction l as [|x l IH]; simpl; intros H; [discriminate|].
  apply bind_finishes; [auto|]. intros b _.
  apply bind_finishes; [auto|]. intros kept _. discriminate.
Qed.

(** ** Sizes *)

Lemma value_size_pos (v : value) : (1 <= value_size v)%nat.
Proof. destruct v; simpl; lia. Qed.

Lemma value_size_in (x : value) (l : list value) :
  In x l -> (value_size x <= list_sum (map value_size l))%nat.
Proof.
  induction l as [|y l IH]; simpl; [tauto|].
  intros [-> | Hin]; [lia|]. specialize (IH Hin). lia.
Qed.

Lemma value_size_element (r : ref) (x : value) (l : list value) :
  In x l -> (value_size x < value_size (VArray r l))%nat.
Proof. intros Hin. apply value_size_in in Hin. simpl. lia. Qed.

Lemma nth_size (i : nat) (l : list value) :
  (value_size (nth i l VUndefined) <= S (list_sum (map value_size l)))%nat.
Proof.
  destruct (nth_in_or_default i l VUndefined) as [Hin | ->].
  - apply value_size_in in Hin. lia.
  - simpl. lia.
Qed.

Lemma characters_size (s : string) (x : value) :
  In x (map (fun c => VString (String c EmptyString)) (list_ascii_of_string s)) ->
  value_size x = 2%nat /\ (1 <= String.length s)%nat.
Proof.
  destruct s as [|c s]; simpl; [tauto|].
  intros Hin. split; [|lia].
  destruct Hin as [<- | Hin]; [reflexivity|].
  apply in_map_iff in Hin as (c' & <- & _). reflexivity.
Qed.

Section EvaluatorFacts.

Context {host : Host}.

(** The operand of an expression is smaller than the item that holds it. *)
Lemma operand_size_item (item path operator operand : value) :
  destructure_expression item = Ret (path, operator, operand) ->
  (value_size operand <= value_size item)%nat.
Proof.
  unfold destructure_expression. destruct item; simpl; try discriminate.
  - intros [= _ _ <-].
    destruct (nth_in_or_default 2
                (map (fun c => VString (String c EmptyString)) (list_ascii_of_string s))
                VUndefined) as [Hin | ->].
    + apply characters_size in Hin as [-> ?]. lia.
    + simpl. lia.
  - intros [= _ _ <-]. apply nth_size.
Qed.

(** The operand of an expression of a list is smaller than the list. *)
Lemma operand_size (expressions : value) (items : list value)
    (item path operator operand : value) :
  iterate expressions = Ret items -> In item items ->
  destructure_expression item = Ret (path, operator, operand) ->
  (value_size operand < value_size expressions)%nat.
Proof.
  intros Hit Hin Hde. destruct expressions; simpl in Hit; try discriminate.
  - injection Hit as <-.
    pose proof (characters_size _ _ Hin) as [_ Hlen].
    apply in_map_iff in Hin as (c & <- & _).
    unfold destructure_expression in Hde. simpl in Hde.
    injection Hde as _ _ <-. simpl. lia.
  - injection Hit as <-.
    apply operand_size_item in Hde.
    pose proof (value_size_element r _ _ Hin). lia.
Qed.

Lemma operator_is_eq (operator : value) (name : string) :
  operator_is operator name = true -> operator = VString name.
Proof.
  unfold operator_is. destruct operator; simpl; try discriminate.
  intros ->%String.eqb_eq. reflexivity.
Qed.

(** Every recursive call descends into a strictly smaller expression
    list. *)
Lemma subcall_size (document expressions document' expressions' : value) :
  subcall (document, expressions) (document', expressions') ->
  (value_size expressions' < value_size expressions)%nat.
Proof.
  inversion 1; subst; try (eapply operand_size; eassumption).
  match goal with
  | Hit : iterate _ = Ret ?items, Hin : In ?item ?items,
    Hde : destructure_expression ?item = Ret _ |- _ =>
      pose proof (operand_size _ _ _ _ _ _ Hit Hin Hde) as Hop
  end.
  match goal with
  | Hin : In expressions' ?lists |- _ =>
      pose proof (value_size_element r _ _ Hin)
  end.
  lia.
Qed.

End EvaluatorFacts.

Section Recursion.

Context {host : Host}.

Lemma for_each_expression_ext (f g : value -> outcome bool) (l : list value) :
  (forall x, In x l -> f x = g x) -> for_each_expression f l = for_each_expression g l.
Proof.
  induction l as [|x l IH]; simpl; intros H; [reflexivity|].
  rewrite (H x) by auto. rewrite IH by auto. reflexivity.
Qed.

Lemma for_each_expression_finishes (f : value -> outcome bool) (l : list value) :
  (forall x, In x l -> finishes (f x)) -> finishes (for_each_expression f l).
Proof.
  induction l as [|x l IH]; simpl; intros H; [discriminate|].
  apply bind_finishes; [auto|]. intros [] _; [auto|discriminate].
Qed.

(** Case analysis along the chain of tests of [evaluateExpression]. *)
Ltac operator_cases operator :=
  unfold evaluateExpression;
  repeat match goal with
  | |- context [operator_is operator ?name] =>
      let H := fresh "Hop" in
      destruct (operator_is operator name) eqn:H;
      [apply operator_is_eq in H; subst operator|]
  end.

(** The result of an expression depends on the recursive calls listed
    by [subcall] only. *)
Lemma evaluateExpression_ext (recur recur' : value -> value -> outcome bool)
    (document expressions : value) (items : list value)
    (item path operator operand : value) :
  iterate expressions = Ret items -> In item items ->
  destructure_expression item = Ret (path, operator, operand) ->
  (forall d e, subcall (document, expressions) (d, e) -> recur d e = recur' d e) ->
  evaluateExpression recur (attribute_value document path) operator operand path
  = evaluateExpression recur' (attribute_value document path) operator operand path.
Proof.
  intros Hit Hin Hde Hrec.
  operator_cases operator; try reflexivity.
  - destruct (attribute_value document path) eqn:Hattr; try reflexivity.
    apply array_some_ext. intros sub Hsub. apply Hrec.
    eapply subcall_some; eassumption.
  - destruct (attribute_value document path) eqn:Hattr; try reflexivity.
    apply array_every_ext. intros sub Hsub. apply Hrec.
    eapply subcall_every; eassumption.
  - rewrite (Hrec _ _ (subcall_not _ _ _ _ _ _ Hit Hin Hde)). reflexivity.
  - destruct operand; try reflexivity.
    apply array_every_ext. intros sub Hsub. apply Hrec.
    eapply subcall_logical; try eassumption. simpl. auto.
  - destruct operand; try reflexivity.
    apply array_some_ext. intros sub Hsub. apply Hrec.
    eapply subcall_logical; try eassumption. simpl. auto.
  - destruct operand; try reflexivity.
    f_equal. apply array_some_ext. intros sub Hsub. apply Hrec.
    eapply subcall_logical; try eassumption. simpl. auto.
Qed.

Lemma optional_value_of_finishes (v : value) : finishes (optional_value_of v).
Proof.
  destruct v; simpl; try discriminate.
  destruct (has_own_property _ _); discriminate.
Qed.

Lemma string_search_finishes (test : string -> string -> bool) (s : string) (x : value) :
  finishes (string_search test s x).
Proof. destruct x; discriminate. Qed.

Lemma js_includes_finishes (receiver x : value) : finishes (js_includes receiver x).
Proof.
  destruct receiver; simpl; try discriminate. apply string_search_finishes.
Qed.

Lemma js_test_finishes (receiver : value) (s : string) : finishes (js_test receiver s).
Proof. destruct receiver; discriminate. Qed.

Lemma Ret_finishes {A : Type} (a : A) : finishes (Ret a).
Proof. discriminate. Qed.

Lemma Throw_finishes {A : Type} (e : error) : finishes (@Throw A e).
Proof. discriminate. Qed.

Create HintDb finishes.

#[local] Hint Resolve optional_value_of_finishes string_search_finishes
  js_includes_finishes js_test_finishes Ret_finishes Throw_finishes : finishes.

(** An expression finishes when the recursive calls it makes do. *)
Lemma evaluateExpression_finishes (recur : value -> value -> outcome bool)
    (document expressions : value) (items : list value)
    (item path operator operand : value) :
  iterate expressions = Ret items -> In item items ->
  destructure_expression item = Ret (path, operator, operand) ->
  (forall d e, subcall (document, expressions) (d, e) -> finishes (recur d e)) ->
  finishes (evaluateExpression recur (attribute_value document path) operator operand path).
Proof.
  intros Hit Hin Hde Hrec.
  operator_cases operator; auto with finishes.
  - repeat (apply bind_finishes; [auto with finishes|intros ? _]); auto with finishes.
  - repeat (apply bind_finishes; [auto with finishes|intros ? _]); auto with finishes.
  - destruct (attribute_value document path); auto with finishes.
  - destruct (attribute_value document path); auto with finishes.
  - destruct (attribute_value document path); auto with finishes.
  - destruct (attribute_value document path); auto with finishes.
  - destruct (attribute_value document path) eqn:Hattr; auto with finishes.
    apply array_some_finishes. intros sub Hsub. apply Hrec.
    eapply subcall_some; eassumption.
  - destruct (attribute_value document path) eqn:Hattr; auto with finishes.
    apply array_every_finishes. intros sub Hsub. apply Hrec.
    eapply subcall_every; eassumption.
  - destruct (attribute_value document path); auto with finishes.
  - apply bind_finishes; [|auto with finishes].
    apply Hrec. eapply subcall_not; eassumption.
  - destruct operand; auto with finishes.
    apply array_every_finishes. intros sub Hsub. apply Hrec.
    eapply subcall_logical; try eassumption. simpl. auto.
  - destruct operand; auto with finishes.
    apply array_some_finishes. intros sub Hsub. apply Hrec.
    eapply subcall_logical; try eassumption. simpl. auto.
  - destruct operand; auto with finishes.
    apply bind_finishes; [|auto with finishes].
    apply array_some_finishes. intros sub Hsub. apply Hrec.
    eapply subcall_logical; try eassumption. simpl. auto.
Qed.

Lemma iterate_finishes (v : value) : finishes (iterate v).
Proof. destruct v; discriminate. Qed.

Lemma destructure_expression_finishes (item : value) :
  finishes (destructure_expression item).
Proof.
  unfold destructure_expression. apply bind_finishes; [apply iterate_finishes|].
  intros; discriminate.
Qed.

Lemma matching_body_ext (recur recur' : value -> value -> outcome bool)
    (document expressions : value) :
  (forall d e, subcall (document, expressions) (d, e) -> recur d e = recur' d e) ->
  matching_body recur document expressions = matching_body recur' document expressions.
Proof.
  intros Hrec. unfold matching_body.
  apply bind_ext. intros items Hit.
  apply for_each_expression_ext. intros item Hin.
  unfold match_expression. apply bind_ext. intros [[path operator] operand] Hde.
  eapply evaluateExpression_ext; eassumption.
Qed.

Lemma matching_body_finishes (recur : value -> value -> outcome bool)
    (document expressions : value) :
  (forall d e, subcall (document, expressions) (d, e) -> finishes (recur d e)) ->
  finishes (matching_body recur document expressions).
Proof.
  intros Hrec. unfold matching_body.
  apply bind_finishes; [apply iterate_finishes|]. intros items Hit.
  apply for_each_expression_finishes. intros item Hin.
  unfold match_expression.
  apply bind_finishes; [apply destructure_expression_finishes|].
  intros [[path operator] operand] Hde.
  eapply evaluateExpression_finishes; eassumption.
Qed.

(** Fuel beyond the size of the expression list changes nothing. *)
Lemma fuel_stable (fuel fuel' : nat) (document expressions : value) :
  (value_size expressions <= fuel)%nat -> (value_size expressions <= fuel')%nat ->
  documentIsMatchingExpressions_fuel fuel document expressions
  = documentIsMatchingExpressions_fuel fuel' document expressions.
Proof.
  revert fuel' document expressions.
  induction fuel as [|fuel IH]; intros fuel' document expressions Hle Hle'.
  { pose proof (value_size_pos expressions). lia. }
  destruct fuel' as [|fuel'].
  { pose proof (value_size_pos expressions). lia. }
  simpl. apply matching_body_ext. intros d e Hsub.
  apply subcall_size in Hsub. apply IH; lia.
Qed.

Lemma fuel_finishes (fuel : nat) (document expressions : value) :
  (value_size expressions <= fuel)%nat ->
  finishes (documentIsMatchingExpressions_fuel fuel document expressions).
Proof.
  revert document expressions.
  induction fuel as [|fuel IH]; intros document expressions Hle.
  { pose proof (value_size_pos expressions). lia. }
  simpl. apply matching_body_finishes. intros d e Hsub.
  apply subcall_size in Hsub. apply IH. lia.
Qed.

(** The equation of the source function. *)
Lemma documentIsMatchingExpressions_eq (document expressions : value) :
  documentIsMatchingExpressions document expressions
  = matching_body documentIsMatchingExpressions document expressions.
Proof.
  unfold documentIsMatchingExpressions at 1.
  pose proof (value_size_pos expressions) as Hpos.
  destruct (value_size expressions) as [|n] eqn:Hsize; [lia|].
  simpl. apply matching_body_ext. intros d e Hsub.
  apply subcall_size in Hsub. unfold documentIsMatchingExpressions.
  apply fuel_stable; lia.
Qed.

Lemma documentIsMatchingExpressions_finishes (document expressions : value) :
  finishes (documentIsMatchingExpressions document expressions).
Proof. apply fuel_finishes. reflexivity. Qed.

Lemma finishes_cases {A : Type} (m : outcome A) :
  finishes m -> returns m \/ throws m.
Proof.
  unfold finishes, returns, throws. destruct m; [left|right|]; eauto. congruence.
Qed.

Lemma subcalls_size (call call' : value * value) :
  tc subcall call call' -> (value_size (snd call') < value_size (snd call))%nat.
Proof.
  induction 1 as [[d e] [d' e'] Hsub|[d e] [d' e'] [d'' e''] Hsub _ IH]; simpl in *.
  - apply subcall_size in Hsub. exact Hsub.
  - apply subcall_size in Hsub. lia.
Qed.

End Recursion.

(** ** Termination of the evaluator *)

Section Termination.

Context {host : Host}.

(** C9. Evaluating an expression list against a document terminates:
    the evaluation returns or throws, and fuel beyond the size of the
    expression list changes nothing.  The body calls itself only
    through the calls listed by [subcall], each of them on a strictly
    smaller expression list (a sub-expression-list of the operand,
    paired with the attribute value or one of its array elements), so
    that no chain of calls comes back to the pair it started from. *)
Theorem evaluation_terminates (document expressions : value) :
  (returns (documentIsMatchingExpressions document expressions)
   \/ throws (documentIsMatchingExpressions document expressions))
  /\ (forall fuel, (value_size expressions <= fuel)%nat ->
        documentIsMatchingExpressions_fuel fuel document expressions
        = documentIsMatchingExpressions document expressions)
  /\ (forall recur recur',
        (forall d e, subcall (document, expressions) (d, e) -> recur d e = recur' d e) ->
        matching_body recur document expressions
        = matching_body recur' document expressions)
  /\ (forall d e, subcall (document, expressions) (d, e) ->
        (value_size e < value_size expressions)%nat)
  /\ ~ tc subcall (document, expressions) (document, expressions).
Proof.
  split; [|split; [|split; [|split]]].
  - apply finishes_cases, documentIsMatchingExpressions_finishes.
  - intros fuel Hle. unfold documentIsMatchingExpressions. apply fuel_stable; lia.
  - intros recur recur'. apply matching_body_ext.
  - intros d e. apply subcall_size.
  - intros Hloop. apply subcalls_size in Hloop. simpl in Hloop. lia.
Qed.

End Termination.

Lemma evaluation_terminates_witness :
  (value_size some_tag_is_x <= 40)%nat
  /\ @documentIsMatchingExpressions_fuel plain_host 40 (doc_value tagged) some_tag_is_x
     = @documentIsMatchingExpressions plain_host (doc_value tagged) some_tag_is_x.
Proof.
  split.
  - vm_compute. lia.
  - refine (proj1 (proj2 (@evaluation_terminates plain_host (doc_value tagged) some_tag_is_x))
                  40%nat _).
    vm_compute. lia.
Defined.

(** ** Evaluation of expression lists *)

Section Matching.

Context {host : Host}.

Lemma bind_test (m : outcome bool) :
  (let* b := m in if b then Ret true else Ret false) = m.
Proof. destruct m as [[]| |]; reflexivity. Qed.

(** The loop over an array of expressions, one turn unrolled. *)
Lemma matching_cons (document : value) (r : ref) (item : value) (rest : list value) :
  documentIsMatchingExpressions document (VArray r (item :: rest))
  = let* b := match_expression documentIsMatchingExpressions document item in
    if b then for_each_expression (match_expression documentIsMatchingExpressions document) rest
    else Ret false.
Proof.
  rewrite documentIsMatchingExpressions_eq. unfold matching_body at 1.
  cbn [iterate bind for_each_expression]. reflexivity.
Qed.

Lemma matching_nil (document : value) (r : ref) :
  documentIsMatchingExpressions document (VArray r []) = Ret true.
Proof. reflexivity. Qed.

Lemma matching_single (document : value) (r r' : ref) (path operator operand : value) :
  documentIsMatchingExpressions document (VArray r [VArray r' [path; operator; operand]])
  = evaluateExpression documentIsMatchingExpressions
      (attribute_value document path) operator operand path.
Proof.
  rewrite matching_cons. unfold match_expression, destructure_expression.
  cbn [iterate bind nth for_each_expression]. apply bind_test.
Qed.

Lemma for_each_expression_throw (f : value -> outcome bool)
    (before : list value) (item : value) (after : list value) (e : error) :
  (forall x, In x before -> f x = Ret true) -> f item = Throw e ->
  for_each_expression f (before ++ item :: after) = Throw e.
Proof.
  intros Hbefore Hitem. induction before as [|x before IH]; simpl.
  - rewrite Hitem. reflexivity.
  - rewrite (Hbefore x) by (simpl; auto). simpl. apply IH.
    intros y Hy. apply Hbefore. simpl. auto.
Qed.

Lemma array_filter_throw {A : Type} (f : A -> outcome bool)
    (before : list A) (x : A) (after : list A) (e : error) :
  (forall y, In y before -> returns (f y)) -> f x = Throw e ->
  array_filter f (before ++ x :: after) = Throw e.
Proof.
  intros Hbefore Hx. induction before as [|y before IH]; simpl.
  - rewrite Hx. reflexivity.
  - destruct (Hbefore y) as [b ->]; [simpl; auto|]. simpl.
    rewrite IH; [reflexivity|]. intros z Hz. apply Hbefore. simpl. auto.
Qed.

Lemma array_filter_all {A : Type} (f : A -> outcome bool) (l : list A) :
  (forall x, In x l -> f x = Ret true) -> array_filter f l = Ret l.
Proof.
  induction l as [|x l IH]; simpl; intros H; [reflexivity|].
  rewrite (H x) by auto. simpl. rewrite IH by auto. reflexivity.
Qed.

(** On an array of expressions the shortcut of [filterDocuments] gives
    what the filter would give. *)
Lemma filterDocuments_array (documents : list Document) (r : ref) (items : list value) :
  filterDocuments documents (VArray r items)
  = array_filter
      (fun document => documentIsMatchingExpressions (doc_value document) (VArray r items))
      documents.
Proof.
  unfold filterDocuments. simpl. destruct items as [|item items]; simpl.
  - symmetry. apply array_filter_all. intros; apply matching_nil.
  - reflexivity.
Qed.

Lemma getCollection_fst (name : string) (collections : CollectionMap) :
  fst (_getCollection name collections) = documents_of collections name.
Proof.
  unfold _getCollection, documents_of. destruct (collections !! name); reflexivity.
Qed.

Lemma findDocuments_fst (name : string) (expressions : value)
    (sort : option SortDescriptor) (skip limit : option Z) (collections : CollectionMap) :
  fst (findDocuments name expressions sort skip limit collections)
  = _findDocuments (documents_of collections name) expressions sort skip limit.
Proof.
  unfold findDocuments. rewrite <- getCollection_fst.
  destruct (_getCollection name collections). reflexivity.
Qed.

Lemma countDocuments_fst (name : string) (expressions : value) (collections : CollectionMap) :
  fst (countDocuments name expressions collections)
  = let* documents := filterDocuments (documents_of collections name) expressions in
    Ret (Z.of_nat (length documents)).
Proof.
  unfold countDocuments. rewrite <- getCollection_fst.
  destruct (_getCollection name collections) as [collection collections']. simpl.
  unfold _findDocuments. destruct (filterDocuments collection expressions); reflexivity.
Qed.

Lemma unsupported_tests (operator : value) (name : string) :
  is_supported operator = false -> In name operators -> operator_is operator name = false.
Proof.
  unfold is_supported. intros Hnone Hin.
  destruct (operator_is operator name) eqn:Htest; [|reflexivity].
  rewrite <- Hnone. symmetry. apply existsb_exists. eauto.
Qed.

End Matching.

(** ** The operator [$every] *)

Section Every.

Context {host : Host}.

(** C1 (amended). For every path and operand, an expression with the
    operator [$every] evaluates to false when the resolved attribute
    value is not an array, and to true when it is an empty array,
    whatever the sub-expressions are. *)
Theorem every_edge_cases (document path operand : value) (r r' : ref) :
  (is_array (attribute_value document path) = false ->
     documentIsMatchingExpressions document
       (VArray r [VArray r' [path; VString "$every"; operand]]) = Ret false)
  /\ (forall r'', attribute_value document path = VArray r'' [] ->
     documentIsMatchingExpressions document
       (VArray r [VArray r' [path; VString "$every"; operand]]) = Ret true)
  /\ (forall recur attributeValue, is_array attributeValue = false ->
     evaluateExpression recur attributeValue (VString "$every") operand path = Ret false)
  /\ (forall recur r'',
     evaluateExpression recur (VArray r'' []) (VString "$every") operand path = Ret true).
Proof.
  assert (Hnot : forall recur attributeValue, is_array attributeValue = false ->
            evaluateExpression recur attributeValue (VString "$every") operand path
            = Ret false).
  { intros recur attributeValue Harr.
    destruct attributeValue; try reflexivity. discriminate. }
  assert (Hempty : forall recur r'',
            evaluateExpression recur (VArray r'' []) (VString "$every") operand path
            = Ret true) by reflexivity.
  repeat split; auto.
  - intros Harr. rewrite matching_single. auto.
  - intros r'' Hattr. rewrite matching_single, Hattr. auto.
Qed.

End Every.

Lemma every_edge_cases_witness :
  @documentIsMatchingExpressions plain_host (doc_value mistagged) every_tag_is_x = Ret false
  /\ @documentIsMatchingExpressions plain_host (doc_value untagged) every_tag_is_x = Ret true.
Proof.
  split.
  - refine (proj1 (@every_edge_cases plain_host (doc_value mistagged) (VString "tags")
                     is_x 14%nat 15%nat) _).
    reflexivity.
  - refine (proj1 (proj2 (@every_edge_cases plain_host (doc_value untagged) (VString "tags")
                            is_x 14%nat 15%nat)) 4%nat _).
    reflexivity.
Defined.

(** C1 as stated fails: on [{tags: []}] the expression
    [["tags", "$every", [["", "$equal", "x"]]]] resolves to an empty
    array and evaluates to true. *)
Lemma every_empty_array_counterexample :
  @attribute_value plain_host (doc_value untagged) (VString "tags") = VArray 4 []
  /\ @evaluateExpression plain_host (@documentIsMatchingExpressions plain_host)
       (VArray 4 []) (VString "$every") is_x (VString "tags") = Ret true
  /\ @documentIsMatchingExpressions plain_host (doc_value untagged) every_tag_is_x
     <> Ret false.
Proof. repeat split. vm_compute. discriminate. Qed.

(** ** Unsupported operators *)

Section Unsupported.

Context {host : Host}.

(** C2. An expression whose operator is none of the store's throws
    the error that carries the operator and the path, whatever the
    attribute value and the operand are; a document whose evaluation
    comes to that expression throws it, and an error thrown while a
    document is evaluated is the outcome of [findDocuments] and of
    [countDocuments]. *)
Theorem unsupported_operator_raises (operator : value) :
  is_supported operator = false ->
  (forall recur attributeValue operand path,
     evaluateExpression recur attributeValue operator operand path
     = Throw (UnsupportedOperator operator path))
  /\ (forall document r before item after path operand,
     destructure_expression item = Ret (path, operator, operand) ->
     (forall x, In x before ->
        match_expression documentIsMatchingExpressions document x = Ret true) ->
     documentIsMatchingExpressions document (VArray r (before ++ item :: after))
     = Throw (UnsupportedOperator operator path))
  /\ (forall collections name r items sort skip limit earlier document later e,
     documents_of collections name = (earlier ++ document :: later)%list ->
     (forall d, In d earlier ->
        returns (documentIsMatchingExpressions (doc_value d) (VArray r items))) ->
     documentIsMatchingExpressions (doc_value document) (VArray r items) = Throw e ->
     fst (findDocuments name (VArray r items) sort skip limit collections) = Throw e
     /\ fst (countDocuments name (VArray r items) collections) = Throw e).
Proof.
  intros Hop.
  assert (Heval : forall recur attributeValue operand path,
             evaluateExpression recur attributeValue operator operand path
             = Throw (UnsupportedOperator operator path)).
  { intros. unfold evaluateExpression.
    rewrite !(unsupported_tests operator) by (assumption || (simpl; tauto)).
    reflexivity. }
  split; [exact Heval|split].
  - intros document r before item after path operand Hde Hbefore.
    rewrite documentIsMatchingExpressions_eq. unfold matching_body at 1.
    cbn [iterate bind]. apply for_each_expression_throw; [exact Hbefore|].
    unfold match_expression. rewrite Hde. cbn [bind]. apply Heval.
  - intros collections name r items sort skip limit earlier document later e
           Hdocs Hearlier Hthrow.
    assert (Hfilter : filterDocuments (documents_of collections name) (VArray r items)
                      = Throw e).
    { rewrite filterDocuments_array, Hdocs.
      apply array_filter_throw; assumption. }
    split.
    + rewrite findDocuments_fst. unfold _findDocuments. rewrite Hfilter. reflexivity.
    + rewrite countDocuments_fst, Hfilter. reflexivity.
Qed.

End Unsupported.

Lemma unsupported_operator_raises_witness :
  is_supported (VString "$about") = false
  /\ fst (@findDocuments plain_host "scores" (VArray 18 [score_above_2; score_about_5])
            None None None score_store)
     = Throw (UnsupportedOperator (VString "$about") (VString "score")).
Proof.
  split; [reflexivity|].
  pose proof (@unsupported_operator_raises plain_host (VString "$about") eq_refl)
    as (_ & Hlist & Hstore).
  refine (proj1 (Hstore score_store "scores" 18%nat [score_above_2; score_about_5]
                   None None None [] (scored 21 "1" 3)
                   [scored 22 "2" 1; scored 23 "3" 2] _ _ _ _)).
  - reflexivity.
  - intros d [].
  - refine (Hlist (doc_value (scored 21 "1" 3)) 18%nat [score_above_2] score_about_5 []
              (VString "score") (VNumber 5) _ _).
    + reflexivity.
    + intros x [<- | []]. vm_compute. reflexivity.
Defined.

(** ** Counting *)

Section Counting.

Context {host : Host}.


End Counting.

(** ** Lookup by identifier *)

Lemma array_find_first {A : Type} (f : A -> bool) (l : list A) (x : A) :
  array_find f l = Some x <->
  exists before after,
    l = (before ++ x :: after)%list /\ f x = true /\ forall y, In y before -> f y = false.
Proof.
  split.
  - induction l as [|y l IH]; simpl; [discriminate|].
    destruct (f y) eqn:Hy.
    + intros [= ->]. exists [], l. repeat split; [assumption|intros ? []].
    + intros Hfind. destruct (IH Hfind) as (before & after & -> & Hx & Hbefore).
      exists (y :: before), after. repeat split; [assumption|].
      intros z [<- | Hz]; auto.
  - intros (before & after & -> & Hx & Hbefore).
    induction before as [|y before IH]; simpl.
    + rewrite Hx. reflexivity.
    + rewrite (Hbefore y) by (simpl; auto). apply IH.
      intros z Hz. apply Hbefore. simpl. auto.
Qed.

Lemma array_find_none {A : Type} (f : A -> bool) (l : list A) :
  array_find f l = None <-> forall y, In y l -> f y = false.
Proof.
  induction l as [|y l IH]; simpl.
  - split; [intros _ ? []|reflexivity].
  - destruct (f y) eqn:Hy.
    + split; [discriminate|]. intros H. rewrite (H y) in Hy by auto. discriminate.
    + rewrite IH. split.
      * intros H z [<- | Hz]; auto.
      * intros H z Hz. apply H. auto.
Qed.

Lemma array_find_exists {A : Type} (f : A -> bool) (l : list A) (x : A) :
  In x l -> f x = true -> exists y, array_find f l = Some y.
Proof.
  intros Hin Hx. destruct (array_find f l) as [y|] eqn:Hfind; [eauto|].
  rewrite array_find_none in Hfind. rewrite (Hfind x Hin) in Hx. discriminate.
Qed.

Lemma getCollection_registered (name : string) (collections : CollectionMap)
    (collection : Collection) :
  collections !! name = Some collection ->
  _getCollection name collections = (collection, collections).
Proof. intros H. unfold _getCollection. rewrite H. reflexivity. Qed.

Lemma getCollection_unregistered (name : string) (collections : CollectionMap) :
  collections !! name = None ->
  _getCollection name collections = ([], <[name := []]> collections).
Proof. intros H. unfold _getCollection. rewrite H. reflexivity. Qed.

(** C4. When the collection holds a document whose identifier field
    equals ([===]) the value of the descriptor, [createDocument]
    returns false and leaves the store as it was: no collection has
    changed in length, documents or order. *)
Theorem create_existing_returns_false (collections : CollectionMap) (name : string)
    (collection : Collection) (identifierName : string) (identifierValue : value)
    (others : IdentifierDescriptor) (document existing : Document) :
  collections !! name = Some collection ->
  In existing collection ->
  strict_equal (doc_get existing identifierName) identifierValue = true ->
  createDocument name ((identifierName, identifierValue) :: others) document collections
  = (Ret false, collections).
Proof.
  intros Hname Hin Heq. unfold createDocument.
  rewrite (getCollection_registered _ _ _ Hname). simpl.
  destruct (array_find_exists
              (fun d => strict_equal (doc_get d identifierName) identifierValue)
              _ _ Hin Heq) as [found ->].
  reflexivity.
Qed.

Lemma create_existing_returns_false_witness :
  createDocument "scores" [("id", VString "2")] (scored 24 "2" 9) score_store
  = (Ret false, score_store).
Proof.
  apply (create_existing_returns_false score_store "scores" scores "id" (VString "2") []
           (scored 24 "2" 9) (scored 22 "2" 1)).
  - reflexivity.
  - simpl. auto.
  - reflexivity.
Defined.

(** ** Lazy registration *)

Lemma prototype_read_plain (collections : CollectionMap) (name : string) :
  collections !! name = None -> inherits name = false ->
  Prototype.read collections name = Prototype.NotDefined.
Proof. intros Hname Hplain. unfold Prototype.read. rewrite Hname, Hplain. reflexivity. Qed.

Lemma prototype_read_inherited (collections : CollectionMap) (name : string) :
  collections !! name = None -> inherits name = true ->
  Prototype.read collections name = Prototype.Inherited.
Proof. intros Hname Hproto. unfold Prototype.read. rewrite Hname, Hproto. reflexivity. Qed.

Section Registration.

Context {host : Host}.

(** C10. Given a name that is not registered and that the registry
    does not inherit, each of [readDocument], [findDocuments] and
    [countDocuments] leaves a store in which the name is registered
    with an empty collection, also when the operation throws, and the
    function at every name does as they do.  Given a name that is not
    registered and that the registry inherits from [Object.prototype],
    [_getCollection] finds the inherited value and registers nothing,
    and [readDocument] throws a TypeError with the store as it was. *)
Theorem registration_misses_inherited_names (collections : CollectionMap) (name : string)
    (identifierDescriptor : IdentifierDescriptor) (expressions : value)
    (sort : option SortDescriptor) (skip limit : option Z) :
  collections !! name = None ->
  (inherits name = false ->
     Prototype._getCollection name collections
     = (Prototype.Own [], <[name := []]> collections)
     /\ Prototype.readDocument name identifierDescriptor collections
        = readDocument name identifierDescriptor collections
     /\ snd (readDocument name identifierDescriptor collections)
        = <[name := []]> collections
     /\ snd (findDocuments name expressions sort skip limit collections)
        = <[name := []]> collections
     /\ snd (countDocuments name expressions collections) = <[name := []]> collections
     /\ (<[name := []]> collections : CollectionMap) !! name = Some []
     /\ (<[name := []]> collections : CollectionMap) <> collections)
  /\ (inherits name = true ->
     Prototype._getCollection name collections = (Prototype.Inherited, collections)
     /\ Prototype.readDocument name identifierDescriptor collections
        = (Throw TypeError, collections)
     /\ snd (Prototype.readDocument name identifierDescriptor collections) !! name = None).
Proof.
  intros Hname. split.
  - intros Hplain.
    unfold Prototype.readDocument, Prototype._getCollection.
    rewrite (prototype_read_plain _ _ Hname Hplain).
    unfold readDocument, findDocuments, countDocuments.
    rewrite (getCollection_unregistered _ _ Hname). simpl.
    repeat split.
    + apply lookup_insert_eq.
    + intros Heq. rewrite <- Heq, lookup_insert_eq in Hname. discriminate.
  - intros Hproto.
    unfold Prototype.readDocument, Prototype._getCollection.
    rewrite (prototype_read_inherited _ _ Hname Hproto). simpl.
    repeat split. exact Hname.
Qed.

End Registration.

Lemma registration_misses_inherited_names_witness :
  snd (readDocument "articles" [("id", VString "1")] score_store) !! "articles" = Some []
  /\ Prototype.readDocument "constructor" [("id", VString "1")] (MemoryStore None)
     = (Throw TypeError, MemoryStore None)
  /\ snd (Prototype.readDocument "constructor" [("id", VString "1")] (MemoryStore None))
     !! "constructor" = None.
Proof.
  pose proof (@registration_misses_inherited_names plain_host score_store "articles"
                [("id", VString "1")] some_tag_is_x None None None eq_refl)
    as [Hplain _].
  pose proof (@registration_misses_inherited_names plain_host (MemoryStore None)
                "constructor" [("id", VString "1")] some_tag_is_x None None None eq_refl)
    as [_ Hproto].
  destruct (Hplain eq_refl) as (_ & _ & -> & _ & _ & Hlookup & _).
  destruct (Hproto eq_refl) as (_ & Hread & Hnone).
  split; [exact Hlookup|]. split; [exact Hread|exact Hnone].
Defined.

(** ** The result pipeline *)

Lemma slice_from (A : Type) (l : list A) (n : Z) :
  0 <= n -> array_slice l n None = drop (Z.to_nat n) l.
Proof.
  intros Hn. unfold array_slice, relative_index.
  destruct (Z.ltb_spec n 0) as [Hneg|_]; [lia|].
  destruct (Z_le_gt_dec n (Z.of_nat (length l))) as [Hle|Hgt].
  - rewrite Z.min_l by lia. apply take_ge. rewrite length_drop. lia.
  - rewrite Z.min_r by lia. rewrite Z.sub_diag. simpl.
    rewrite !drop_ge by lia. reflexivity.
Qed.

Lemma slice_to (A : Type) (l : list A) (m : Z) :
  0 <= m -> array_slice l 0 (Some m) = take (Z.to_nat m) l.
Proof.
  intros Hm. unfold array_slice, relative_index.
  destruct (Z.ltb_spec m 0) as [Hneg|_]; [lia|]. simpl (0 <? 0).
  cbv iota. rewrite (Z.min_l 0) by lia. simpl (Z.to_nat 0). rewrite drop_0, Z.sub_0_r.
  destruct (Z_le_gt_dec m (Z.of_nat (length l))) as [Hle|Hgt].
  - rewrite Z.min_l by lia. reflexivity.
  - rewrite Z.min_r by lia. rewrite Nat2Z.id.
    rewrite !take_ge by lia. reflexivity.
Qed.

Section PipelineFacts.

Context {host : Host}.


End PipelineFacts.


(** ** Reading by identifier *)





(** ** Deleting by identifier *)




Lemma documents_of_insert (collections : CollectionMap) (name : string)
    (collection : Collection) :
  documents_of (<[name := collection]> collections) name = collection.
Proof. unfold documents_of. rewrite lookup_insert_eq. reflexivity. Qed.

Lemma getCollection_snd (name : string) (collections : CollectionMap) :
  documents_of (snd (_getCollection name collections)) name = documents_of collections name.
Proof.
  unfold _getCollection, documents_of.
  destruct (collections !! name) as [collection|] eqn:Hname; simpl.
  - rewrite Hname. reflexivity.
  - rewrite lookup_insert_eq. reflexivity.
Qed.

Lemma readDocument_fst (name : string) (identifierDescriptor : IdentifierDescriptor)
    (collections : CollectionMap) :
  fst (readDocument name identifierDescriptor collections)
  = _readDocument (documents_of collections name) identifierDescriptor.
Proof.
  unfold readDocument. rewrite <- getCollection_fst.
  destruct (_getCollection name collections). reflexivity.
Qed.




(** ** Order of the top-level expressions *)

Section Commutation.

Context {host : Host} {flags : RegExpFlags}.

Lemma matching_pair (document : value) (r : ref) (e1 e2 : value) :
  documentIsMatchingExpressions document (VArray r [e1; e2])
  = let* b1 := match_expression documentIsMatchingExpressions document e1 in
    if b1 then match_expression documentIsMatchingExpressions document e2
    else Ret false.
Proof.
  rewrite matching_cons. apply bind_ext. intros [] _; [|reflexivity].
  cbn [for_each_expression]. apply bind_test.
Qed.

(** Two expressions in either order: the same answer when both orders
    return one. *)
Lemma pair_agrees (document : value) (r r' : ref) (e1 e2 : value) (b b' : bool) :
  documentIsMatchingExpressions document (VArray r [e1; e2]) = Ret b ->
  documentIsMatchingExpressions document (VArray r' [e2; e1]) = Ret b' ->
  b = b'.
Proof.
  rewrite !matching_pair.
  destruct (match_expression documentIsMatchingExpressions document e1) as [[]| |],
           (match_expression documentIsMatchingExpressions document e2) as [[]| |];
    simpl; congruence.
Qed.

(** Two expressions that both return: either order returns. *)
Lemma pair_commutes (document : value) (r r' : ref) (e1 e2 : value) :
  returns (match_expression documentIsMatchingExpressions document e1) ->
  returns (match_expression documentIsMatchingExpressions document e2) ->
  documentIsMatchingExpressions document (VArray r [e1; e2])
  = documentIsMatchingExpressions document (VArray r' [e2; e1])
  /\ returns (documentIsMatchingExpressions document (VArray r [e1; e2])).
Proof.
  rewrite !matching_pair. intros [b1 ->] [b2 ->]. simpl.
  destruct b1, b2; split; try reflexivity; eexists; reflexivity.
Qed.

Lemma array_filter_agrees {A : Type} (f g : A -> outcome bool) (l kept kept' : list A) :
  (forall x b b', In x l -> f x = Ret b -> g x = Ret b' -> b = b') ->
  array_filter f l = Ret kept -> array_filter g l = Ret kept' -> kept = kept'.
Proof.
  revert kept kept'. induction l as [|x l IH]; simpl; intros kept kept' Hfg.
  - congruence.
  - destruct (f x) as [b| |] eqn:Hf; try discriminate.
    destruct (g x) as [b'| |] eqn:Hg; try discriminate. simpl.
    destruct (array_filter f l) as [k| |]; try discriminate.
    destruct (array_filter g l) as [k'| |]; try discriminate. simpl.
    intros [= <-] [= <-].
    rewrite (Hfg x b b') by (simpl; auto).
    rewrite (IH k k'); [reflexivity| |reflexivity|reflexivity].
    intros y c c' Hy. apply Hfg. simpl. auto.
Qed.

Lemma array_filter_returns {A : Type} (f : A -> outcome bool) (l : list A) :
  (forall x, In x l -> returns (f x)) -> returns (array_filter f l).
Proof.
  induction l as [|x l IH]; simpl; intros H; [eexists; reflexivity|].
  destruct (H x) as [b ->]; [auto|]. destruct IH as [kept ->]; [auto|].
  eexists. reflexivity.
Qed.

(** C6 (amended). For two expressions whose regular expressions keep
    no state (neither the flag [g] nor the flag [y]), filtering with
    [[e1, e2]] and filtering with [[e2, e1]] keep the same documents
    whenever both return; they both return, and are equal, when each
    of the two expressions returns on every document. *)
Theorem filtering_commutes (documents : list Document) (r r' : ref) (e1 e2 : value) :
  stateless e1 = true -> stateless e2 = true ->
  (forall kept kept',
     filterDocuments documents (VArray r [e1; e2]) = Ret kept ->
     filterDocuments documents (VArray r' [e2; e1]) = Ret kept' ->
     kept = kept')
  /\ ((forall d, In d documents ->
         returns (match_expression documentIsMatchingExpressions (doc_value d) e1)
         /\ returns (match_expression documentIsMatchingExpressions (doc_value d) e2)) ->
      filterDocuments documents (VArray r [e1; e2])
      = filterDocuments documents (VArray r' [e2; e1])
      /\ returns (filterDocuments documents (VArray r [e1; e2]))).
Proof.
  intros _ _. rewrite !filterDocuments_array. split.
  - intros kept kept'. apply array_filter_agrees.
    intros d b b' _. apply pair_agrees.
  - intros Hreturn. split.
    + apply array_filter_ext. intros d Hd.
      destruct (Hreturn d Hd) as [H1 H2]. apply pair_commutes; assumption.
    + apply array_filter_returns. intros d Hd.
      destruct (Hreturn d Hd) as [H1 H2].
      apply (pair_commutes (doc_value d) r r' e1 e2); assumption.
Qed.

End Commutation.

Lemma filtering_commutes_witness :
  @filterDocuments plain_host scores
     (VArray 18 [score_above_2; expression 19 "id" "$matches" (VRegExp 90 "1")])
  = @filterDocuments plain_host scores
      (VArray 20 [expression 19 "id" "$matches" (VRegExp 90 "1"); score_above_2])
  /\ [scored 21 "1" 3] = [scored 21 "1" 3].
Proof.
  pose proof (@filtering_commutes plain_host no_flags scores 18%nat 20%nat score_above_2
                (expression 19 "id" "$matches" (VRegExp 90 "1")) eq_refl eq_refl)
    as [Hboth Heach].
  split.
  - apply Heach. intros d Hd. vm_compute in Hd.
    destruct Hd as [<- | [<- | [<- | []]]]; split; eexists; vm_compute; reflexivity.
  - apply Hboth; vm_compute; reflexivity.
Defined.

(** C6 as stated fails: on a document whose score is 1, the list
    [[["score", "$greaterThan", 2], ["score", "$about", 5]]] stops at
    its first expression and keeps nothing, and the list with the two
    expressions exchanged throws. *)
Lemma filtering_order_counterexample :
  @filterDocuments plain_host [scored 22 "2" 1] (VArray 18 [score_above_2; score_about_5])
  = Ret []
  /\ @filterDocuments plain_host [scored 22 "2" 1] (VArray 19 [score_about_5; score_above_2])
     = Throw (UnsupportedOperator (VString "$about") (VString "score")).
Proof. split; vm_compute; reflexivity. Qed.

(** * Further properties of the store *)

(** ** The registry *)

Lemma getCollection_other (name name' : string) (collections : CollectionMap) :
  name' <> name ->
  snd (_getCollection name collections) !! name' = collections !! name'.
Proof.
  intros Hne. unfold _getCollection. destruct (collections !! name); simpl.
  - reflexivity.
  - apply lookup_insert_ne. congruence.
Qed.

Lemma getCollection_documents (name name' : string) (collections : CollectionMap) :
  documents_of (snd (_getCollection name collections)) name'
  = documents_of collections name'.
Proof.
  destruct (decide (name' = name)) as [-> | Hne].
  - apply getCollection_snd.
  - unfold documents_of. rewrite getCollection_other by assumption. reflexivity.
Qed.

Lemma getCollection_again (name : string) (collections : CollectionMap) :
  _getCollection name (snd (_getCollection name collections))
  = (documents_of collections name, snd (_getCollection name collections)).
Proof.
  unfold _getCollection at 1.
  pose proof (getCollection_snd name collections) as Hdocs.
  unfold documents_of at 1 in Hdocs.
  destruct (snd (_getCollection name collections) !! name) as [c|] eqn:Hname.
  - simpl in Hdocs. rewrite Hdocs. reflexivity.
  - exfalso. unfold _getCollection in Hname.
    destruct (collections !! name) eqn:Hold; simpl in Hname.
    + congruence.
    + rewrite lookup_insert_eq in Hname. discriminate.
Qed.

Lemma insert_getCollection (name : string) (collection : Collection)
    (collections : CollectionMap) :
  (<[name := collection]> (snd (_getCollection name collections)) : CollectionMap)
  = <[name := collection]> collections.
Proof.
  unfold _getCollection. destruct (collections !! name); simpl; [reflexivity|].
  apply insert_insert_eq.
Qed.

Lemma documents_of_insert_ne (collections : CollectionMap) (name name' : string)
    (collection : Collection) :
  name' <> name ->
  documents_of (<[name := collection]> collections) name' = documents_of collections name'.
Proof.
  intros Hne. unfold documents_of. rewrite lookup_insert_ne by congruence. reflexivity.
Qed.


(** What each writing operation does, in terms of the documents the
    collection held. *)
Lemma createDocument_eq (name : string) (identifierDescriptor : IdentifierDescriptor)
    (document : Document) (collections : CollectionMap) :
  createDocument name identifierDescriptor document collections
  = match _readDocument (documents_of collections name) identifierDescriptor with
    | Ret (Some _) => (Ret false, snd (_getCollection name collections))
    | Ret None =>
        (Ret true, <[name := (documents_of collections name ++ [document])%list]> collections)
    | Throw e => (Throw e, snd (_getCollection name collections))
    | OutOfFuel => (OutOfFuel, snd (_getCollection name collections))
    end.
Proof.
  unfold createDocument. rewrite <- getCollection_fst.
  rewrite <- (insert_getCollection name _ collections).
  destruct (_getCollection name collections) as [c s]. simpl.
  destruct (_readDocument c identifierDescriptor) as [[d|]| |]; reflexivity.
Qed.

Lemma deleteDocument_eq (name : string) (identifierDescriptor : IdentifierDescriptor)
    (collections : CollectionMap) :
  deleteDocument name identifierDescriptor collections
  = match _readDocument (documents_of collections name) identifierDescriptor with
    | Ret None => (Ret false, snd (_getCollection name collections))
    | Ret (Some document) =>
        (Ret true, <[name := pull (documents_of collections name) document]> collections)
    | Throw e => (Throw e, snd (_getCollection name collections))
    | OutOfFuel => (OutOfFuel, snd (_getCollection name collections))
    end.
Proof.
  unfold deleteDocument. rewrite <- getCollection_fst.
  destruct (_getCollection name collections) as [c s] eqn:Hget. simpl.
  destruct (_readDocument c identifierDescriptor) as [[d|]| |]; try reflexivity.
  f_equal. change s with (snd (c, s)). rewrite <- Hget. apply insert_getCollection.
Qed.

Lemma readDocument_snd (name : string) (identifierDescriptor : IdentifierDescriptor)
    (collections : CollectionMap) :
  snd (readDocument name identifierDescriptor collections)
  = snd (_getCollection name collections).
Proof. unfold readDocument. destruct (_getCollection name collections). reflexivity. Qed.

Section QueryStore.

Context {host : Host}.

Lemma findDocuments_snd (name : string) (expressions : value)
    (sort : option SortDescriptor) (skip limit : option Z) (collections : CollectionMap) :
  snd (findDocuments name expressions sort skip limit collections)
  = snd (_getCollection name collections).
Proof. unfold findDocuments. destruct (_getCollection name collections). reflexivity. Qed.

Lemma countDocuments_snd (name : string) (expressions : value)
    (collections : CollectionMap) :
  snd (countDocuments name expressions collections)
  = snd (_getCollection name collections).
Proof. unfold countDocuments. destruct (_getCollection name collections). reflexivity. Qed.

End QueryStore.

Section UpdateFacts.

Context {lodash : Lodash}.

Lemma updateDocument_eq (name : string) (identifierDescriptor : IdentifierDescriptor)
    (documentPatch : DocumentPatch) (collections : CollectionMap) :
  updateDocument name identifierDescriptor documentPatch collections
  = match _readDocument (documents_of collections name) identifierDescriptor with
    | Ret None => (Ret false, snd (_getCollection name collections))
    | Ret (Some existing) =>
        (Ret true,
         <[name := changed_in_place (documents_of collections name)
                     (apply_patch existing documentPatch)]> collections)
    | Throw e => (Throw e, snd (_getCollection name collections))
    | OutOfFuel => (OutOfFuel, snd (_getCollection name collections))
    end.
Proof.
  unfold updateDocument. rewrite <- getCollection_fst.
  destruct (_getCollection name collections) as [c s] eqn:Hget. simpl.
  destruct (_readDocument c identifierDescriptor) as [[d|]| |]; try reflexivity.
  f_equal. change s with (snd (c, s)). rewrite <- Hget. apply insert_getCollection.
Qed.

End UpdateFacts.

(** ** Creating *)







(** ** What the operations leave alone *)

Section Untouched.

Context {host : Host} {lodash : Lodash}.

(** X4. With a descriptor that has no entry, [createDocument],
    [readDocument], [updateDocument] and [deleteDocument] throw a
    TypeError, whatever the collection holds, and the documents of
    every collection are what they were. *)
Theorem empty_descriptor_throws (collections : CollectionMap) (name : string)
    (document : Document) (documentPatch : DocumentPatch) :
  fst (createDocument name [] document collections) = Throw TypeError
  /\ fst (readDocument name [] collections) = Throw TypeError
  /\ fst (updateDocument name [] documentPatch collections) = Throw TypeError
  /\ fst (deleteDocument name [] collections) = Throw TypeError
  /\ forall name',
       documents_of (snd (createDocument name [] document collections)) name'
       = documents_of collections name'
       /\ documents_of (snd (updateDocument name [] documentPatch collections)) name'
          = documents_of collections name'
       /\ documents_of (snd (deleteDocument name [] collections)) name'
          = documents_of collections name'.
Proof.
  rewrite createDocument_eq, updateDocument_eq, deleteDocument_eq, readDocument_fst.
  simpl. repeat split; apply getCollection_documents.
Qed.

(** X5. [readDocument], [findDocuments] and [countDocuments] leave the
    documents of every collection as they were, whether they return or
    throw, and a second call leaves the store of the first. *)
Theorem reading_keeps_documents (collections : CollectionMap) (name name' : string)
    (identifierDescriptor : IdentifierDescriptor) (expressions : value)
    (sort : option SortDescriptor) (skip limit : option Z) :
  let read := snd (readDocument name identifierDescriptor collections) in
  let found := snd (findDocuments name expressions sort skip limit collections) in
  let counted := snd (countDocuments name expressions collections) in
  documents_of read name' = documents_of collections name'
  /\ documents_of found name' = documents_of collections name'
  /\ documents_of counted name' = documents_of collections name'
  /\ snd (readDocument name identifierDescriptor read) = read
  /\ snd (findDocuments name expressions sort skip limit found) = found
  /\ snd (countDocuments name expressions counted) = counted.
Proof.
  intros read found counted. unfold read, found, counted.
  rewrite !readDocument_snd, !findDocuments_snd, !countDocuments_snd.
  rewrite getCollection_again. repeat split; apply getCollection_documents.
Qed.


End Untouched.


(** ** Updating *)

Lemma array_find_in {A : Type} (f : A -> bool) (l : list A) (x : A) :
  array_find f l = Some x -> In x l /\ f x = true.
Proof.
  intros Hfind. apply array_find_first in Hfind as (before & after & -> & Hx & _).
  split; [|exact Hx]. apply in_or_app. simpl. auto.
Qed.

Lemma readDocument_in (collection : Collection) (identifierDescriptor : IdentifierDescriptor)
    (document : Document) :
  _readDocument collection identifierDescriptor = Ret (Some document) ->
  In document collection.
Proof.
  destruct identifierDescriptor as [|[identifierName identifierValue] others]; simpl.
  - discriminate.
  - intros [= Hfind]. apply array_find_in in Hfind. tauto.
Qed.

Lemma changed_in_place_refs (collection : Collection) (changed : Document) :
  map doc_ref (changed_in_place collection changed) = map doc_ref collection.
Proof.
  unfold changed_in_place. rewrite map_map. apply map_ext. intros d. simpl.
  destruct (Nat.eqb_spec (doc_ref d) (doc_ref changed)); congruence.
Qed.

Lemma changed_in_place_same (collection : Collection) (document : Document) :
  consistent collection -> In document collection ->
  changed_in_place collection document = collection.
Proof.
  intros Hconsistent Hin. unfold changed_in_place.
  rewrite <- (map_id collection) at 2. apply map_ext_in. intros d Hd. simpl.
  destruct (Nat.eqb_spec (doc_ref d) (doc_ref document)) as [Href|_]; [|reflexivity].
  symmetry. apply Hconsistent; assumption.
Qed.

Section Updating.

Context {lodash : Lodash}.

Lemma apply_unset_falsy (fields entries : list (string * value)) :
  (forall entry, In entry entries -> to_boolean (snd entry) = false) ->
  apply_unset fields entries = fields.
Proof.
  unfold apply_unset. revert fields.
  induction entries as [|entry entries IH]; simpl; intros fields H; [reflexivity|].
  rewrite (H entry) by auto. apply IH. auto.
Qed.


(** X8. When a document matches, [updateDocument] returns true and the
    collection holds the same objects at the same places: no document
    is added, removed or moved.  The entries of the first matching
    object show the patched document, [$set] applied before [$unset],
    and the entries of the other objects are what they were. *)
Theorem update_keeps_collection_shape (collections : CollectionMap)
    (name identifierName : string) (identifierValue : value)
    (others : IdentifierDescriptor) (documentPatch : DocumentPatch)
    (before after : list Document) (existing : Document) :
  documents_of collections name = (before ++ existing :: after)%list ->
  strict_equal (doc_get existing identifierName) identifierValue = true ->
  (forall d, In d before ->
     strict_equal (doc_get d identifierName) identifierValue = false) ->
  let updated :=
    updateDocument name ((identifierName, identifierValue) :: others) documentPatch
      collections in
  fst updated = Ret true
  /\ map doc_ref (documents_of (snd updated) name)
     = map doc_ref (documents_of collections name)
  /\ length (documents_of (snd updated) name) = length (documents_of collections name)
  /\ forall (i : nat) d,
       nth_error (documents_of collections name) i = Some d ->
       nth_error (documents_of (snd updated) name) i
       = Some (if Nat.eqb (doc_ref d) (doc_ref existing)
               then apply_patch existing documentPatch else d).
Proof.
  intros Hdocs Hexisting Hbefore updated.
  assert (Hfind : array_find
            (fun d => strict_equal (doc_get d identifierName) identifierValue)
            (documents_of collections name) = Some existing).
  { apply array_find_first. eauto. }
  unfold updated. rewrite updateDocument_eq. unfold _readDocument. rewrite Hfind. simpl.
  rewrite documents_of_insert.
  split; [reflexivity|]. split; [apply changed_in_place_refs|]. split.
  - unfold changed_in_place. apply length_map.
  - intros i d Hd. unfold changed_in_place.
    rewrite nth_error_map, Hd. reflexivity.
Qed.

(** X9. A patch that has nothing to apply (no entry of [$set], and no
    entry of [$unset] with a true flag) changes no document, whether a
    document matches or not. *)
Theorem update_with_nothing_to_apply (collections : CollectionMap) (name : string)
    (identifierDescriptor : IdentifierDescriptor) (documentPatch : DocumentPatch) :
  consistent (documents_of collections name) ->
  (patch_set documentPatch = None \/ patch_set documentPatch = Some []) ->
  (forall entries, patch_unset documentPatch = Some entries ->
     forall entry, In entry entries -> to_boolean (snd entry) = false) ->
  forall name',
    documents_of (snd (updateDocument name identifierDescriptor documentPatch collections))
      name'
    = documents_of collections name'.
Proof.
  intros Hconsistent Hset Hunset name'.
  assert (Hpatch : forall existing, apply_patch existing documentPatch = existing).
  { intros [r fields]. unfold apply_patch. simpl. f_equal.
    assert (Hfields : match patch_set documentPatch with
                      | Some entries => apply_set fields entries
                      | None => fields
                      end = fields).
    { destruct Hset as [-> | ->]; reflexivity. }
    rewrite Hfields.
    destruct (patch_unset documentPatch) as [entries|] eqn:Hentries; [|reflexivity].
    apply apply_unset_falsy. apply (Hunset entries). reflexivity. }
  rewrite updateDocument_eq.
  destruct (_readDocument (documents_of collections name) identifierDescriptor)
    as [[existing|]| |] eqn:Hread; simpl; try apply getCollection_documents.
  rewrite Hpatch, changed_in_place_same
    by (assumption || (eapply readDocument_in; eassumption)).
  destruct (decide (name' = name)) as [-> | Hne].
  - apply documents_of_insert.
  - apply documents_of_insert_ne. assumption.
Qed.

End Updating.


Lemma update_keeps_collection_shape_witness :
  documents_of
    (snd (@updateDocument plain_lodash "scores" [("id", VString "2")]
            (mkDocumentPatch (Some [("score", VNumber 9)]) (Some [("id", VBool false)]))
            score_store))
    "scores"
  = [scored 21 "1" 3; scored 22 "2" 9; scored 23 "3" 2]
  /\ map doc_ref
       (documents_of
          (snd (@updateDocument plain_lodash "scores" [("id", VString "2")]
                  (mkDocumentPatch (Some [("score", VNumber 9)])
                     (Some [("id", VBool false)]))
                  score_store))
          "scores")
     = [21; 22; 23]%nat.
Proof.
  split; [vm_compute; reflexivity|].
  refine (proj1 (proj2 (@update_keeps_collection_shape plain_lodash score_store "scores"
                          "id" (VString "2") []
                          (mkDocumentPatch (Some [("score", VNumber 9)])
                             (Some [("id", VBool false)]))
                          [scored 21 "1" 3] [scored 23 "3" 2] (scored 22 "2" 1) _ _ _))).
  - reflexivity.
  - reflexivity.
  - intros d [<- | []]. reflexivity.
Defined.

Lemma update_with_nothing_to_apply_witness :
  documents_of
    (snd (@updateDocument plain_lodash "scores" [("id", VString "2")]
            (mkDocumentPatch None (Some [("score", VBool false)])) score_store))
    "scores"
  = scores.
Proof.
  refine (@update_with_nothing_to_apply plain_lodash score_store "scores"
            [("id", VString "2")] (mkDocumentPatch None (Some [("score", VBool false)]))
            _ _ _ "scores").
  - intros x y Hx Hy Href. vm_compute in Hx, Hy.
    destruct Hx as [<- | [<- | [<- | []]]], Hy as [<- | [<- | [<- | []]]];
      try reflexivity; discriminate.
  - left. reflexivity.
  - intros entries [= <-] entry [<- | []]. reflexivity.
Defined.

(** * Further properties of the result pipeline *)

Lemma slice_from_end (A : Type) (l : list A) (n : Z) :
  n < 0 -> array_slice l n None = drop (length l - Z.to_nat (- n)) l.
Proof.
  intros Hn. unfold array_slice, relative_index.
  destruct (Z.ltb_spec n 0) as [_|Hge]; [|lia].
  replace (Z.to_nat (Z.max (Z.of_nat (length l) + n) 0))
    with (length l - Z.to_nat (- n))%nat by lia.
  apply take_ge. rewrite length_drop. lia.
Qed.

Lemma slice_to_end (A : Type) (l : list A) (m : Z) :
  m < 0 -> array_slice l 0 (Some m) = take (length l - Z.to_nat (- m)) l.
Proof.
  intros Hm.
  assert (Hstart : relative_index (Z.of_nat (length l)) 0 = 0).
  { unfold relative_index. simpl. lia. }
  unfold array_slice. rewrite Hstart. unfold relative_index.
  destruct (Z.ltb_spec m 0) as [_|Hge]; [|lia].
  simpl (Z.to_nat 0). rewrite drop_0. f_equal. lia.
Qed.

Lemma array_slice_nil (A : Type) (start : Z) (stop : option Z) :
  array_slice (@nil A) start stop = [].
Proof. unfold array_slice. rewrite drop_nil, take_nil. reflexivity. Qed.

Lemma array_filter_ret {A : Type} (f : A -> outcome bool) (l kept : list A) :
  array_filter f l = Ret kept <->
  (forall x, In x l -> returns (f x)) /\ kept = List.filter (fun x => is_match (f x)) l.
Proof.
  revert kept. induction l as [|x l IH]; intros kept; simpl.
  - split.
    + intros [= <-]. split; [intros ? []|reflexivity].
    + intros [_ ->]. reflexivity.
  - split.
    + destruct (f x) as [b| |] eqn:Hx; try discriminate. simpl.
      destruct (array_filter f l) as [rest| |] eqn:Hrest; try discriminate. simpl.
      intros [= <-]. destruct (proj1 (IH rest) eq_refl) as [Hreturns ->].
      split.
      * intros y [<- | Hy]; [rewrite Hx; eexists; reflexivity|auto].
      * destruct b; reflexivity.
    + intros [Hreturns ->].
      destruct (Hreturns x) as [b Hx]; [auto|]. rewrite Hx. simpl.
      rewrite (proj2 (IH _) (conj (fun y Hy => Hreturns y (or_intror Hy)) eq_refl)).
      destruct b; reflexivity.
Qed.

Lemma filter_sublist {A : Type} (f : A -> bool) (l : list A) :
  sublist (List.filter f l) l.
Proof.
  induction l as [|x l IH]; simpl; [constructor|].
  destruct (f x); constructor; exact IH.
Qed.

Section PipelineMore.

Context {host : Host}.

(** X10. On an array of expressions [filterDocuments] returns exactly
    when the evaluation of every document returns, and it then keeps
    the documents that match, each once for each of its entries, in the
    order of the collection. *)
Theorem filter_keeps_matching (documents kept : list Document) (r : ref)
    (items : list value) :
  filterDocuments documents (VArray r items) = Ret kept <->
  (forall d, In d documents ->
     returns (documentIsMatchingExpressions (doc_value d) (VArray r items)))
  /\ kept = List.filter
              (fun d => is_match (documentIsMatchingExpressions (doc_value d)
                                    (VArray r items)))
              documents.
Proof. rewrite filterDocuments_array. apply array_filter_ret. Qed.


(** X12. On a collection without documents (registered, or under a
    name that is not registered and that the registry does not
    inherit) no expression is evaluated: for every array of
    expressions, also one with an operator that is not supported,
    [findDocuments] without sort returns the empty list and
    [countDocuments] returns 0. *)
Theorem empty_collection_never_throws (collections : CollectionMap) (name : string)
    (r : ref) (items : list value) (skip limit : option Z) :
  collections !! name = Some [] \/ (collections !! name = None /\ inherits name = false) ->
  fst (findDocuments name (VArray r items) None skip limit collections) = Ret []
  /\ fst (countDocuments name (VArray r items) collections) = Ret 0.
Proof.
  intros Hname.
  assert (Hempty : documents_of collections name = []).
  { unfold documents_of. destruct Hname as [-> | [-> _]]; reflexivity. }
  rewrite findDocuments_fst, countDocuments_fst.
  unfold _findDocuments. rewrite filterDocuments_array, Hempty. simpl.
  split; [|reflexivity]. f_equal.
  unfold limitDocuments, skipDocuments.
  destruct skip, limit; rewrite ?array_slice_nil; reflexivity.
Qed.

(** X13. Pages tile the result: for a skip N and limits M and K that
    are not negative, the page of M documents after N followed by the
    page of K documents after N + M is the page of M + K documents
    after N. *)
Theorem pages_tile (collections : CollectionMap) (name : string) (expressions : value)
    (sort : option SortDescriptor) (n m k : Z) (first second : list Document) :
  0 <= n -> 0 <= m -> 0 <= k ->
  fst (findDocuments name expressions sort (Some n) (Some m) collections) = Ret first ->
  fst (findDocuments name expressions sort (Some (n + m)) (Some k) collections)
  = Ret second ->
  fst (findDocuments name expressions sort (Some n) (Some (m + k)) collections)
  = Ret (first ++ second)%list.
Proof.
  intros Hn Hm Hk. rewrite !findDocuments_fst. unfold _findDocuments.
  destruct (filterDocuments (documents_of collections name) expressions)
    as [filtered| |]; try discriminate. simpl.
  unfold limitDocuments, skipDocuments.
  rewrite !slice_from, !slice_to by lia.
  intros [= <-] [= <-]. f_equal.
  rewrite (Z2Nat.inj_add n m), (Z2Nat.inj_add m k) by lia.
  rewrite <- drop_drop. apply eq_sym, take_take_drop.
Qed.

(** X14. For a skip N and a limit M that are not negative,
    [findDocuments] returns as many documents as remain after N of the
    sorted ones, and M at most. *)
Theorem result_length (collections : CollectionMap) (name : string) (expressions : value)
    (sort : option SortDescriptor) (n m : Z) (filtered result : list Document) :
  0 <= n -> 0 <= m ->
  filterDocuments (documents_of collections name) expressions = Ret filtered ->
  fst (findDocuments name expressions sort (Some n) (Some m) collections) = Ret result ->
  Z.of_nat (length result)
  = Z.min m (Z.max (Z.of_nat (length (sortDocuments filtered sort)) - n) 0).
Proof.
  intros Hn Hm Hfiltered. rewrite findDocuments_fst. unfold _findDocuments.
  rewrite Hfiltered. simpl. unfold limitDocuments, skipDocuments.
  rewrite slice_from, slice_to by lia. intros [= <-].
  rewrite length_take, length_drop. lia.
Qed.

(** X15. A negative skip keeps the last documents, as many as its
    absolute value, and a negative limit leaves out that many last
    documents. *)
Theorem negative_skip_and_limit (documents : list Document) (n : Z) :
  n < 0 ->
  skipDocuments documents (Some n) = drop (length documents - Z.to_nat (- n)) documents
  /\ limitDocuments documents (Some n)
     = take (length documents - Z.to_nat (- n)) documents.
Proof.
  intros Hn. split; [apply slice_from_end|apply slice_to_end]; exact Hn.
Qed.

(** X16. Without sort, whatever the skip and the limit are,
    [findDocuments] returns documents of the collection in their stored
    order: the result is a subsequence of the collection, each of whose
    documents matches. *)
Theorem unsorted_result_is_subsequence (collections : CollectionMap) (name : string)
    (r : ref) (items : list value) (skip limit : option Z) (result : list Document) :
  fst (findDocuments name (VArray r items) None skip limit collections) = Ret result ->
  sublist result (documents_of collections name)
  /\ forall d, In d result ->
       documentIsMatchingExpressions (doc_value d) (VArray r items) = Ret true.
Proof.
  rewrite findDocuments_fst. unfold _findDocuments.
  destruct (filterDocuments (documents_of collections name) (VArray r items))
    as [filtered| |] eqn:Hfilter; try discriminate. simpl.
  intros [= <-].
  rewrite filterDocuments_array in Hfilter. apply array_filter_ret in Hfilter as [_ ->].
  assert (Hsub : sublist
            (limitDocuments (skipDocuments
               (List.filter
                  (fun d => is_match (documentIsMatchingExpressions (doc_value d)
                                        (VArray r items)))
                  (documents_of collections name)) skip) limit)
            (List.filter
               (fun d => is_match (documentIsMatchingExpressions (doc_value d)
                                     (VArray r items)))
               (documents_of collections name))).
  { unfold limitDocuments, skipDocuments, array_slice.
    destruct skip, limit;
      repeat (try reflexivity;
              first [ etransitivity; [apply sublist_take|]
                    | etransitivity; [apply sublist_drop|] ]). }
  split.
  - etransitivity; [exact Hsub|apply filter_sublist].
  - intros d Hd. apply list_elem_of_In in Hd.
    pose proof (elem_of_sublist _ _ _ Hd Hsub) as Hin.
    apply list_elem_of_In, filter_In in Hin as [_ Hmatch].
    destruct (documentIsMatchingExpressions (doc_value d) (VArray r items))
      as [[]| |]; try discriminate. reflexivity.
Qed.

End PipelineMore.

Lemma filter_keeps_matching_witness :
  @filterDocuments plain_host scores (VArray 18 [score_above_2]) = Ret [scored 21 "1" 3].
Proof.
  apply (@filter_keeps_matching plain_host scores [scored 21 "1" 3] 18%nat [score_above_2]).
  split.
  - intros d Hd. vm_compute in Hd.
    destruct Hd as [<- | [<- | [<- | []]]]; eexists; vm_compute; reflexivity.
  - vm_compute. reflexivity.
Defined.

Lemma empty_collection_never_throws_witness :
  fst (@findDocuments plain_host "articles" (VArray 18 [score_about_5]) None
         (Some 2) (Some 10) (MemoryStore None))
  = Ret []
  /\ fst (@countDocuments plain_host "articles" (VArray 18 [score_about_5])
            (MemoryStore None))
     = Ret 0.
Proof.
  apply (@empty_collection_never_throws plain_host (MemoryStore None) "articles" 18%nat
           [score_about_5] (Some 2) (Some 10)).
  right. split; reflexivity.
Defined.

Lemma pages_tile_witness :
  fst (@findDocuments plain_host "scores" (VArray 18 []) (Some [("score", "asc")])
         (Some 0) (Some (1 + 1)) score_store)
  = Ret ([scored 22 "2" 1] ++ [scored 23 "3" 2])%list.
Proof.
  apply (@pages_tile plain_host score_store "scores" (VArray 18 [])
           (Some [("score", "asc")]) 0 1 1 [scored 22 "2" 1] [scored 23 "3" 2]);
    try lia; vm_compute; reflexivity.
Defined.

Lemma result_length_witness :
  Z.of_nat (length [scored 23 "3" 2; scored 21 "1" 3]) = Z.min 5 (Z.max (3 - 1) 0).
Proof.
  apply (@result_length plain_host score_store "scores" (VArray 18 [])
           (Some [("score", "asc")]) 1 5 scores [scored 23 "3" 2; scored 21 "1" 3]);
    try lia; vm_compute; reflexivity.
Defined.

Lemma negative_skip_and_limit_witness :
  skipDocuments scores (Some (-1)) = [scored 23 "3" 2]
  /\ limitDocuments scores (Some (-1)) = [scored 21 "1" 3; scored 22 "2" 1].
Proof.
  apply (negative_skip_and_limit scores (-1)). lia.
Defined.

Lemma unsorted_result_is_subsequence_witness :
  sublist [scored 21 "1" 3] (documents_of score_store "scores")
  /\ forall d, In d [scored 21 "1" 3] ->
       @documentIsMatchingExpressions plain_host (doc_value d) (VArray 18 [score_above_2])
       = Ret true.
Proof.
  apply (@unsorted_result_is_subsequence plain_host score_store "scores" 18%nat
           [score_above_2] None (Some 5) [scored 21 "1" 3]).
  vm_compute. reflexivity.
Defined.

(** * Further properties of the evaluator *)

Section EvaluatorMore.

Context {host : Host}.

Lemma matching_array (document : value) (r : ref) (items : list value) :
  documentIsMatchingExpressions document (VArray r items)
  = for_each_expression (match_expression documentIsMatchingExpressions document) items.
Proof. rewrite documentIsMatchingExpressions_eq. reflexivity. Qed.

Lemma for_each_expression_app (f : value -> outcome bool) (l l' : list value) :
  for_each_expression f (l ++ l')%list
  = let* b := for_each_expression f l in
    if b then for_each_expression f l' else Ret false.
Proof.
  induction l as [|x l IH]; simpl; [reflexivity|].
  destruct (f x) as [[]| |]; simpl; auto.
Qed.

Lemma attribute_value_whole (document : value) :
  attribute_value document (VString "") = document.
Proof. reflexivity. Qed.

Lemma bind_negb_negb (m : outcome bool) :
  (let* b := (let* b' := m in Ret (negb b')) in Ret (negb b)) = m.
Proof. destruct m as [[]| |]; reflexivity. Qed.

(** X17. [$and] flattens: an expression [$and] over two arrays of
    expressions gives what the one array of all their expressions
    gives against the attribute value, errors included. *)
Theorem and_is_concatenation (document path : value) (r r' r'' r1 r2 r3 : ref)
    (l1 l2 : list value) :
  documentIsMatchingExpressions document
    (VArray r [VArray r' [path; VString "$and"; VArray r'' [VArray r1 l1; VArray r2 l2]]])
  = documentIsMatchingExpressions (attribute_value document path)
      (VArray r3 (l1 ++ l2)).
Proof.
  rewrite matching_single.
  change (evaluateExpression documentIsMatchingExpressions (attribute_value document path)
            (VString "$and") (VArray r'' [VArray r1 l1; VArray r2 l2]) path)
    with (array_every
            (fun subexpressions =>
               documentIsMatchingExpressions (attribute_value document path) subexpressions)
            [VArray r1 l1; VArray r2 l2]).
  cbn [array_every]. rewrite !matching_array, for_each_expression_app.
  apply bind_ext. intros [] _; [apply bind_test|reflexivity].
Qed.

(** X18. [$not] over a single [$or] expression on the whole value is
    [$nor]: the two give the same result for every operand, errors
    included. *)
Theorem not_or_is_nor (document path lists : value) (r r' r1 r2 r3 r4 : ref) :
  documentIsMatchingExpressions document
    (VArray r [VArray r' [path; VString "$not";
                          VArray r1 [VArray r2 [VString ""; VString "$or"; lists]]]])
  = documentIsMatchingExpressions document
      (VArray r3 [VArray r4 [path; VString "$nor"; lists]]).
Proof.
  rewrite !matching_single.
  change (evaluateExpression documentIsMatchingExpressions (attribute_value document path)
            (VString "$not") (VArray r1 [VArray r2 [VString ""; VString "$or"; lists]]) path)
    with (let* b := documentIsMatchingExpressions (attribute_value document path)
                      (VArray r1 [VArray r2 [VString ""; VString "$or"; lists]]) in
          Ret (negb b)).
  rewrite matching_single, attribute_value_whole.
  destruct lists; reflexivity.
Qed.

(** X19. Two [$not] one in the other cancel: the result is that of the
    inner expressions against the attribute value, errors included. *)
Theorem double_negation (document path inner : value) (r r' r1 r2 : ref) :
  documentIsMatchingExpressions document
    (VArray r [VArray r' [path; VString "$not";
                          VArray r1 [VArray r2 [VString ""; VString "$not"; inner]]]])
  = documentIsMatchingExpressions (attribute_value document path) inner.
Proof.
  rewrite matching_single.
  change (evaluateExpression documentIsMatchingExpressions (attribute_value document path)
            (VString "$not") (VArray r1 [VArray r2 [VString ""; VString "$not"; inner]]) path)
    with (let* b := documentIsMatchingExpressions (attribute_value document path)
                      (VArray r1 [VArray r2 [VString ""; VString "$not"; inner]]) in
          Ret (negb b)).
  rewrite matching_single, attribute_value_whole.
  apply bind_negb_negb.
Qed.

(** X20. [$equal] compares what [valueOf] gives: null and undefined are
    equal to each other, two dates are equal when their times are, a
    date is equal to the number of its time, and two arrays are equal
    only when they are the same array.  [$notEqual] gives the negation
    of [$equal] and throws when it throws. *)
Theorem equal_compares_values (recur : value -> value -> outcome bool) (path : value) :
  (forall a b, In a [VNull; VUndefined] -> In b [VNull; VUndefined] ->
     evaluateExpression recur a (VString "$equal") b path = Ret true)
  /\ (forall r r' time time',
     evaluateExpression recur (VDate r time) (VString "$equal") (VDate r' time') path
     = Ret (Z.eqb time time'))
  /\ (forall r time,
     evaluateExpression recur (VDate r time) (VString "$equal") (VNumber time) path
     = Ret true)
  /\ (forall r r' elems elems',
     evaluateExpression recur (VArray r elems) (VString "$equal") (VArray r' elems') path
     = Ret (Nat.eqb r r'))
  /\ (forall a b,
     evaluateExpression recur a (VString "$notEqual") b path
     = let* equal := evaluateExpression recur a (VString "$equal") b path in
       Ret (negb equal)).
Proof.
  split; [|split; [|split; [|split]]].
  - intros a b [<- | [<- | []]] [<- | [<- | []]]; reflexivity.
  - reflexivity.
  - intros r time. unfold evaluateExpression. simpl. rewrite Z.eqb_refl. reflexivity.
  - reflexivity.
  - intros a b.
    change (evaluateExpression recur a (VString "$notEqual") b path)
      with (let* x := optional_value_of a in
            let* y := optional_value_of b in
            Ret (negb (strict_equal x y))).
    change (evaluateExpression recur a (VString "$equal") b path)
      with (let* x := optional_value_of a in
            let* y := optional_value_of b in
            Ret (strict_equal x y)).
    destruct (optional_value_of a); simpl; try reflexivity.
    destruct (optional_value_of b); reflexivity.
Qed.

(** X21. The string operators give false, and no error, on an
    attribute value that is not a string, whatever the operand is.  On
    a string, [$includes], [$startsWith] and [$endsWith] throw a
    TypeError for an operand that is a regular expression, and
    [$matches] throws one for an operand that is not. *)
Theorem string_operators_on_other_values (recur : value -> value -> outcome bool)
    (operator : string) (attributeValue operand path : value) :
  In operator ["$includes"; "$startsWith"; "$endsWith"; "$matches"] ->
  ((forall s, attributeValue <> VString s) ->
     evaluateExpression recur attributeValue (VString operator) operand path = Ret false)
  /\ (forall s r source,
     attributeValue = VString s -> operand = VRegExp r source -> operator <> "$matches" ->
     evaluateExpression recur attributeValue (VString operator) operand path
     = Throw TypeError)
  /\ (forall s,
     attributeValue = VString s -> (forall r source, operand <> VRegExp r source) ->
     operator = "$matches" ->
     evaluateExpression recur attributeValue (VString operator) operand path
     = Throw TypeError).
Proof.
  intros Hop. split; [|split].
  - intros Hother.
    destruct Hop as [<- | [<- | [<- | [<- | []]]]];
      (destruct attributeValue; try reflexivity; exfalso; eapply Hother; reflexivity).
  - intros s r source -> -> Hne.
    destruct Hop as [<- | [<- | [<- | [<- | []]]]]; try reflexivity. congruence.
  - intros s -> Hother ->.
    destruct operand; try reflexivity. exfalso. eapply Hother. reflexivity.
Qed.

End EvaluatorMore.

Lemma string_operators_on_other_values_witness :
  @evaluateExpression plain_host (@documentIsMatchingExpressions plain_host)
    (VNumber 5) (VString "$startsWith") (VRegExp 40 "5") (VString "score")
  = Ret false
  /\ @evaluateExpression plain_host (@documentIsMatchingExpressions plain_host)
       (VString "5") (VString "$startsWith") (VRegExp 40 "5") (VString "score")
     = Throw TypeError.
Proof.
  split.
  - refine (proj1 (@string_operators_on_other_values plain_host
                     (@documentIsMatchingExpressions plain_host) "$startsWith"
                     (VNumber 5) (VRegExp 40 "5") (VString "score") _) _).
    + simpl. auto.
    + discriminate.
  - refine (proj1 (proj2 (@string_operators_on_other_values plain_host
                     (@documentIsMatchingExpressions plain_host) "$startsWith"
                     (VString "5") (VRegExp 40 "5") (VString "score") _))
              "5" 40%nat "5" eq_refl eq_refl _).
    + simpl. auto.
    + discriminate.
Defined.

Lemma equal_compares_values_witness :
  @evaluateExpression plain_host (@documentIsMatchingExpressions plain_host)
    VUndefined (VString "$equal") VNull (VString "deletedAt")
  = Ret true.
Proof.
  refine (proj1 (@equal_compares_values plain_host
                   (@documentIsMatchingExpressions plain_host) (VString "deletedAt"))
            VUndefined VNull _ _); simpl; auto.
Defined.

(** ** Quantifiers over array elements *)

Lemma array_some_skip {A : Type} (f : A -> outcome bool) (before l : list A) :
  (forall y, In y before -> f y = Ret false) ->
  array_some f (before ++ l)%list = array_some f l.
Proof.
  induction before as [|y before IH]; simpl; intros H; [reflexivity|].
  rewrite (H y) by auto. simpl. apply IH. auto.
Qed.

Lemma array_every_skip {A : Type} (f : A -> outcome bool) (before l : list A) :
  (forall y, In y before -> f y = Ret true) ->
  array_every f (before ++ l)%list = array_every f l.
Proof.
  induction before as [|y before IH]; simpl; intros H; [reflexivity|].
  rewrite (H y) by auto. simpl. apply IH. auto.
Qed.

Lemma array_some_thrown {A : Type} (f : A -> outcome bool) (l : list A) (e : error) :
  array_some f l = Throw e -> exists x, In x l /\ f x = Throw e.
Proof.
  induction l as [|x l IH]; simpl; [discriminate|].
  destruct (f x) as [[]| |] eqn:Hx; simpl; try discriminate.
  - intros H. destruct (IH H) as (y & Hy & Hfy). eauto.
  - intros [= <-]. eauto.
Qed.

Lemma array_every_thrown {A : Type} (f : A -> outcome bool) (l : list A) (e : error) :
  array_every f l = Throw e -> exists x, In x l /\ f x = Throw e.
Proof.
  induction l as [|x l IH]; simpl; [discriminate|].
  destruct (f x) as [[]| |] eqn:Hx; simpl; try discriminate.
  - intros H. destruct (IH H) as (y & Hy & Hfy). eauto.
  - intros [= <-]. eauto.
Qed.

Section Quantifiers.

Context {host : Host}.

Lemma for_each_expression_thrown (f : value -> outcome bool) (l : list value) (e : error) :
  for_each_expression f l = Throw e -> exists x, In x l /\ f x = Throw e.
Proof.
  induction l as [|x l IH]; simpl; [discriminate|].
  destruct (f x) as [[]| |] eqn:Hx; simpl; try discriminate.
  - intros H. destruct (IH H) as (y & Hy & Hfy). eauto.
  - intros [= <-]. eauto.
Qed.

Lemma matching_not (document operand : value) (r r' : ref) :
  documentIsMatchingExpressions document
    (VArray r [VArray r' [VString ""; VString "$not"; operand]])
  = let* b := documentIsMatchingExpressions document operand in Ret (negb b).
Proof. rewrite matching_single. reflexivity. Qed.

(** X22. [$some] and [$every] stop at the element that decides: when
    the elements before it have all failed the sub-expressions, an
    element that passes makes [$some] true, and one on which they throw
    makes it throw; when the elements before it have all passed, an
    element that fails makes [$every] false.  The elements after it are
    not evaluated, so that their errors do not show. *)
Theorem quantifiers_stop_early (document path operand : value) (r r' r'' : ref)
    (before : list value) (element : value) (after : list value) :
  attribute_value document path = VArray r'' (before ++ element :: after) ->
  ((forall y, In y before -> documentIsMatchingExpressions y operand = Ret false) ->
   forall result,
     documentIsMatchingExpressions element operand = result ->
     result = Ret true \/ throws result ->
     documentIsMatchingExpressions document
       (VArray r [VArray r' [path; VString "$some"; operand]]) = result)
  /\ ((forall y, In y before -> documentIsMatchingExpressions y operand = Ret true) ->
      forall result,
        documentIsMatchingExpressions element operand = result ->
        result = Ret false \/ throws result ->
        documentIsMatchingExpressions document
          (VArray r [VArray r' [path; VString "$every"; operand]]) = result).
Proof.
  intros Hattr. split.
  - intros Hbefore result Helement Hresult. rewrite matching_single, Hattr.
    change (array_some (fun subdocument => documentIsMatchingExpressions subdocument operand)
              (before ++ element :: after) = result).
    rewrite array_some_skip by exact Hbefore. simpl. rewrite Helement.
    destruct Hresult as [-> | [e ->]]; reflexivity.
  - intros Hbefore result Helement Hresult. rewrite matching_single, Hattr.
    change (array_every (fun subdocument => documentIsMatchingExpressions subdocument operand)
              (before ++ element :: after) = result).
    rewrite array_every_skip by exact Hbefore. simpl. rewrite Helement.
    destruct Hresult as [-> | [e ->]]; reflexivity.
Qed.

(** X23. On an array whose elements are all evaluated without an
    error, [$every] with some sub-expressions is the negation of
    [$some] with their [$not]. *)
Theorem every_is_not_some_not (document path operand : value) (r r' r1 r2 r3 r4 r5 : ref)
    (subdocuments : list value) :
  attribute_value document path = VArray r5 subdocuments ->
  (forall y, In y subdocuments -> returns (documentIsMatchingExpressions y operand)) ->
  documentIsMatchingExpressions document
    (VArray r [VArray r' [path; VString "$every"; operand]])
  = let* b := documentIsMatchingExpressions document
                (VArray r1 [VArray r2 [path; VString "$some";
                   VArray r3 [VArray r4 [VString ""; VString "$not"; operand]]]]) in
    Ret (negb b).
Proof.
  intros Hattr Hreturns. rewrite !matching_single, Hattr.
  change (array_every (fun subdocument => documentIsMatchingExpressions subdocument operand)
            subdocuments
          = let* b := array_some
                        (fun subdocument =>
                           documentIsMatchingExpressions subdocument
                             (VArray r3 [VArray r4 [VString ""; VString "$not"; operand]]))
                        subdocuments in
            Ret (negb b)).
  clear Hattr.
  induction subdocuments as [|y subdocuments IH]; simpl; [reflexivity|].
  rewrite matching_not.
  destruct (Hreturns y (or_introl eq_refl)) as [b ->]. destruct b; simpl.
  - apply IH. intros z Hz. apply Hreturns. simpl. auto.
  - reflexivity.
Qed.

(** X24. [$any] with an array operand is membership by strict
    equality: it is true exactly when an element of the operand is the
    attribute value, and it never throws; with an operand that is
    undefined or null it throws a TypeError. *)
Theorem any_is_membership (recur : value -> value -> outcome bool)
    (attributeValue path : value) :
  (forall r elems,
     evaluateExpression recur attributeValue (VString "$any") (VArray r elems) path
     = Ret (existsb (strict_equal attributeValue) elems)
     /\ (evaluateExpression recur attributeValue (VString "$any") (VArray r elems) path
         = Ret true
         <-> exists element,
               In element elems /\ strict_equal attributeValue element = true))
  /\ evaluateExpression recur attributeValue (VString "$any") VUndefined path
     = Throw TypeError
  /\ evaluateExpression recur attributeValue (VString "$any") VNull path
     = Throw TypeError.
Proof.
  split; [|split; reflexivity].
  intros r elems.
  assert (Heval : evaluateExpression recur attributeValue (VString "$any")
                    (VArray r elems) path
                  = Ret (existsb (strict_equal attributeValue) elems)) by reflexivity.
  split; [exact Heval|]. rewrite Heval. rewrite <- existsb_exists.
  split; [intros [= ->]; reflexivity|intros ->; reflexivity].
Qed.

End Quantifiers.

Lemma quantifiers_stop_early_witness :
  @documentIsMatchingExpressions plain_host
    (VObject 50 [("tags", VArray 51 [VString "x"; VNumber 1])])
    (VArray 52 [expression 53 "tags" "$some"
                  (VArray 54 [expression 55 "" "$startsWith" (VString "x")])])
  = Ret true.
Proof.
  refine (proj1 (@quantifiers_stop_early plain_host
                   (VObject 50 [("tags", VArray 51 [VString "x"; VNumber 1])])
                   (VString "tags")
                   (VArray 54 [expression 55 "" "$startsWith" (VString "x")])
                   52%nat 53%nat 51%nat [] (VString "x") [VNumber 1] _)
            _ (Ret true) _ _).
  - reflexivity.
  - intros y [].
  - vm_compute. reflexivity.
  - left. reflexivity.
Defined.

Lemma every_is_not_some_not_witness :
  @documentIsMatchingExpressions plain_host (doc_value tagged) every_tag_is_x = Ret false.
Proof.
  refine (eq_trans
            (@every_is_not_some_not plain_host (doc_value tagged) (VString "tags") is_x
               14%nat 15%nat 60%nat 61%nat 62%nat 63%nat 2%nat
               [VString "x"; VString "y"] _ _) _).
  - reflexivity.
  - intros y [<- | [<- | []]]; eexists; vm_compute; reflexivity.
  - vm_compute. reflexivity.
Defined.

Lemma any_is_membership_witness :
  @evaluateExpression plain_host (@documentIsMatchingExpressions plain_host)
    (VString "y") (VString "$any") (VArray 70 [VString "x"; VString "y"]) (VString "tag")
  = Ret true.
Proof.
  apply (proj1 (@any_is_membership plain_host (@documentIsMatchingExpressions plain_host)
                  (VString "y") (VString "tag"))).
  exists (VString "y"). split; [simpl; auto|reflexivity].
Defined.

(** ** The operator an error names *)

Section Reports.

Context {host : Host}.

Lemma optional_value_of_thrown (v : value) (e : error) :
  optional_value_of v = Throw e -> e = TypeError.
Proof.
  destruct v; simpl; try discriminate.
  destruct (has_own_property _ _); [intros [= <-]; reflexivity|discriminate].
Qed.

Lemma string_search_thrown (test : string -> string -> bool) (s : string) (x : value)
    (e : error) :
  string_search test s x = Throw e -> e = TypeError.
Proof. destruct x; simpl; try discriminate. intros [= <-]. reflexivity. Qed.

Lemma js_includes_thrown (receiver x : value) (e : error) :
  js_includes receiver x = Throw e -> e = TypeError.
Proof.
  destruct receiver; simpl; try discriminate; try (intros [= <-]; reflexivity).
  apply string_search_thrown.
Qed.

Lemma js_test_thrown (receiver : value) (s : string) (e : error) :
  js_test receiver s = Throw e -> e = TypeError.
Proof. destruct receiver; simpl; try discriminate; intros [= <-]; reflexivity. Qed.

Ltac operator_tests operator :=
  unfold evaluateExpression;
  repeat match goal with
  | |- context [operator_is operator ?name] =>
      let H := fresh "Hop" in
      destruct (operator_is operator name) eqn:H;
      [apply operator_is_eq in H; subst operator|]
  end.

(** An expression throws the error of an unsupported operator for its
    own operator, when none of the tests passes, or passes on the one a
    recursive call throws. *)
Lemma evaluateExpression_reports (recur : value -> value -> outcome bool)
    (attributeValue operator operand path op p : value) :
  (forall d e, recur d e = Throw (UnsupportedOperator op p) -> is_supported op = false) ->
  evaluateExpression recur attributeValue operator operand path
  = Throw (UnsupportedOperator op p) ->
  is_supported op = false.
Proof.
  intros Hrec.
  operator_tests operator.
  - destruct (optional_value_of attributeValue) eqn:Ha; simpl; try discriminate.
    + destruct (optional_value_of operand) eqn:Hb; simpl; try discriminate.
      intros [= ->]. apply optional_value_of_thrown in Hb. discriminate.
    + intros [= ->]. apply optional_value_of_thrown in Ha. discriminate.
  - destruct (optional_value_of attributeValue) eqn:Ha; simpl; try discriminate.
    + destruct (optional_value_of operand) eqn:Hb; simpl; try discriminate.
      intros [= ->]. apply optional_value_of_thrown in Hb. discriminate.
    + intros [= ->]. apply optional_value_of_thrown in Ha. discriminate.
  - discriminate.
  - discriminate.
  - discriminate.
  - discriminate.
  - intros H. apply js_includes_thrown in H. discriminate.
  - destruct attributeValue; try discriminate.
    intros H. apply string_search_thrown in H. discriminate.
  - destruct attributeValue; try discriminate.
    intros H. apply string_search_thrown in H. discriminate.
  - destruct attributeValue; try discriminate.
    intros H. apply string_search_thrown in H. discriminate.
  - destruct attributeValue; try discriminate.
    intros H. apply js_test_thrown in H. discriminate.
  - destruct attributeValue; try discriminate.
    intros H. apply array_some_thrown in H as (x & _ & Hx). eapply Hrec, Hx.
  - destruct attributeValue; try discriminate.
    intros H. apply array_every_thrown in H as (x & _ & Hx). eapply Hrec, Hx.
  - destruct attributeValue; discriminate.
  - destruct (recur attributeValue operand) eqn:Hnot; simpl; try discriminate.
    intros [= ->]. eapply Hrec, Hnot.
  - destruct operand; try discriminate.
    intros H. apply array_every_thrown in H as (x & _ & Hx). eapply Hrec, Hx.
  - destruct operand; try discriminate.
    intros H. apply array_some_thrown in H as (x & _ & Hx). eapply Hrec, Hx.
  - destruct operand; try discriminate.
    destruct (array_some _ _) eqn:Hsome; simpl; try discriminate.
    intros [= ->]. apply array_some_thrown in Hsome as (x & _ & Hx). eapply Hrec, Hx.
  - intros [= <- _]. unfold is_supported. simpl.
    repeat match goal with H : operator_is _ _ = false |- _ => rewrite H; clear H end.
    reflexivity.
Qed.

Lemma destructure_expression_thrown (item : value) (e : error) :
  destructure_expression item = Throw e -> e = TypeError.
Proof.
  unfold destructure_expression.
  destruct item; simpl; try discriminate; intros [= <-]; reflexivity.
Qed.

Lemma matching_fuel_reports (fuel : nat) (document expressions op p : value) :
  documentIsMatchingExpressions_fuel fuel document expressions
  = Throw (UnsupportedOperator op p) ->
  is_supported op = false.
Proof.
  revert document expressions.
  induction fuel as [|fuel IH]; intros document expressions; simpl; [discriminate|].
  unfold matching_body.
  destruct (iterate expressions) as [items| |] eqn:Hitems; simpl; try discriminate.
  - intros H. apply for_each_expression_thrown in H as (item & _ & Hitem).
    unfold match_expression in Hitem.
    destruct (destructure_expression item) as [[[path operator] operand]| |] eqn:Hde;
      simpl in Hitem; try discriminate.
    + eapply evaluateExpression_reports; [|exact Hitem]. intros d e. apply IH.
    + injection Hitem as ->. apply destructure_expression_thrown in Hde. discriminate.
  - destruct expressions; simpl in Hitems; try discriminate;
      injection Hitems as <-; discriminate.
Qed.

(** X25. The error of an unsupported operator tells the truth: when
    the evaluation of a document, of a [findDocuments] or of a
    [countDocuments] throws it, the operator it carries is none of the
    supported ones. *)
Theorem reported_operator_is_unsupported (operator path : value) :
  (forall document expressions,
     documentIsMatchingExpressions document expressions
     = Throw (UnsupportedOperator operator path) ->
     is_supported operator = false)
  /\ (forall collections name r items sort skip limit,
     fst (findDocuments name (VArray r items) sort skip limit collections)
     = Throw (UnsupportedOperator operator path) ->
     is_supported operator = false)
  /\ (forall collections name r items,
     fst (countDocuments name (VArray r items) collections)
     = Throw (UnsupportedOperator operator path) ->
     is_supported operator = false).
Proof.
  assert (Hfilter : forall documents r items,
            filterDocuments documents (VArray r items)
            = Throw (UnsupportedOperator operator path) ->
            is_supported operator = false).
  { intros documents r items. rewrite filterDocuments_array.
    induction documents as [|d documents IH]; simpl; [discriminate|].
    destruct (documentIsMatchingExpressions (doc_value d) (VArray r items))
      as [b| |] eqn:Hd; simpl; try discriminate.
    - destruct (array_filter _ documents); simpl; try discriminate.
      intros [= ->]. apply IH. reflexivity.
    - intros [= ->]. eapply matching_fuel_reports, Hd. }
  split; [|split].
  - intros document expressions. apply matching_fuel_reports.
  - intros collections name r items sort skip limit. rewrite findDocuments_fst.
    unfold _findDocuments.
    destruct (filterDocuments _ _) eqn:Hf; simpl; try discriminate.
    intros [= ->]. eapply Hfilter, Hf.
  - intros collections name r items. rewrite countDocuments_fst.
    destruct (filterDocuments _ _) eqn:Hf; simpl; try discriminate.
    intros [= ->]. eapply Hfilter, Hf.
Qed.

End Reports.

Lemma reported_operator_is_unsupported_witness :
  is_supported (VString "$about") = false.
Proof.
  refine (proj1 (@reported_operator_is_unsupported plain_host (VString "$about")
                   (VString "score"))
            (doc_value (scored 21 "1" 3)) (VArray 18 [score_about_5]) _).
  vm_compute. reflexivity.
Defined.

(** * Identifiers of the model layer *)

(** X26. [validateId] accepts the strings that are not empty and
    nothing else: it throws for every value that is not a string, with
    a message that names the type of the value, and for the empty
    string. *)
Theorem validateId_accepts_nonempty_strings (id : value) :
  (validateId id = None <-> exists s, id = VString s /\ s <> "")
  /\ ((forall s, id <> VString s) ->
      validateId id = Some ("'id' must be a string (provided: " ++ typeof id ++ ")"))
  /\ (id = VString "" -> validateId id = Some "'id' cannot be empty").
Proof.
  split; [|split].
  - destruct id; try (split; [discriminate|intros (s' & [=] & _)]).
    unfold validateId. simpl. destruct (String.eqb_spec s "") as [-> | Hne].
    + split; [discriminate|]. intros (s' & [= <-] & Hs'). congruence.
    + split; [|reflexivity]. intros _. eauto.
  - intros Hother. destruct id; try reflexivity. exfalso. eapply Hother. reflexivity.
  - intros ->. reflexivity.
Qed.

Lemma validateId_accepts_nonempty_strings_witness :
  validateId (VString "ck1") = None
  /\ validateId (VNumber 7) = Some "'id' must be a string (provided: number)".
Proof.
  split.
  - apply (validateId_accepts_nonempty_strings (VString "ck1")).
    exists "ck1". split; [reflexivity|discriminate].
  - apply (proj1 (proj2 (validateId_accepts_nonempty_strings (VNumber 7)))).
    discriminate.
Defined.

(** * The instances of an entity class *)

Lemma strict_equal_refl (v : value) : strict_equal v v = true.
Proof.
  destruct v; simpl;
    auto using Bool.eqb_reflx, Z.eqb_refl, String.eqb_refl, Nat.eqb_refl.
Qed.

Lemma strict_equal_trans (a b c : value) :
  strict_equal a b = true -> strict_equal b c = strict_equal a c.
Proof.
  destruct a, b; simpl; try discriminate; intros H; destruct c; try reflexivity;
    first [ apply Bool.eqb_prop in H
          | apply Z.eqb_eq in H
          | apply String.eqb_eq in H
          | apply Nat.eqb_eq in H
          | idtac ];
    subst; reflexivity.
Qed.

Lemma strict_equal_sym (a b : value) : strict_equal a b = strict_equal b a.
Proof.
  destruct a, b; simpl; try reflexivity;
    first [ apply Nat.eqb_sym | apply Z.eqb_sym | apply String.eqb_sym
          | destruct b, b0; reflexivity ].
Qed.

Lemma map_get_set (entries : InstanceMap) (key key' v : value) :
  map_get (map_set entries key v) key'
  = if strict_equal key key' then v else map_get entries key'.
Proof.
  induction entries as [|[k x] entries IH]; cbn [map_set map_get];
    unfold same_value_zero.
  - destruct (strict_equal key key'); reflexivity.
  - destruct (strict_equal k key) eqn:Hk; cbn [map_get]; unfold same_value_zero.
    + rewrite (strict_equal_trans k key key' Hk).
      destruct (strict_equal k key'); reflexivity.
    + rewrite IH. destruct (strict_equal k key') eqn:Hk'; [|reflexivity].
      destruct (strict_equal key key') eqn:Hkey; [|reflexivity].
      pose proof (strict_equal_trans key key' k Hkey) as Htrans.
      rewrite (strict_equal_sym key' k), (strict_equal_sym key k) in Htrans.
      congruence.
Qed.

(** X27. An instance that has an [_id] is found again: after
    [$setInstance(instance)], [$getInstance(object)] returns the
    instance for every object whose [_id] is that of the instance,
    whatever was registered under it before, and what it returns for
    an object with another [_id] is what it returned before. *)
Theorem set_then_get_instance (instance object : value)
    (instances : option InstanceMap) :
  strict_equal (optional_id instance) VUndefined = false ->
  strict_equal (optional_id object) VUndefined = false ->
  fst (getInstance object (setInstance instance instances))
  = if strict_equal (optional_id instance) (optional_id object) then instance
    else fst (getInstance object instances).
Proof.
  intros Hinstance Hobject. unfold getInstance, setInstance.
  rewrite Hinstance, Hobject.
  destruct instances as [entries|]; cbn [__getInstances fst snd].
  - apply map_get_set.
  - apply (map_get_set []).
Qed.

Lemma set_then_get_instance_witness :
  fst (getInstance (VObject 81 [("_id", VString "ck1")])
         (setInstance (VObject 80 [("_id", VString "ck1"); ("title", VString "a")]) None))
  = VObject 80 [("_id", VString "ck1"); ("title", VString "a")].
Proof.
  apply (set_then_get_instance
           (VObject 80 [("_id", VString "ck1"); ("title", VString "a")])
           (VObject 81 [("_id", VString "ck1")]) None); reflexivity.
Defined.

(** X28. A value without an [_id] (undefined, null, an object whose
    [_id] is undefined) is neither registered nor looked up:
    [$setInstance] and [$getInstance] leave the class as it is, without
    making its map, and [$getInstance] returns undefined. *)
Theorem instances_need_an_id (object : value) (instances : option InstanceMap) :
  strict_equal (optional_id object) VUndefined = true ->
  setInstance object instances = instances
  /\ getInstance object instances = (VUndefined, instances).
Proof.
  intros Hid. unfold setInstance, getInstance. rewrite Hid. split; reflexivity.
Qed.

Lemma instances_need_an_id_witness :
  setInstance (VObject 82 [("title", VString "a")]) None = None
  /\ getInstance VNull None = (VUndefined, None).
Proof.
  split.
  - apply (instances_need_an_id (VObject 82 [("title", VString "a")]) None). reflexivity.
  - apply (instances_need_an_id VNull None). reflexivity.
Defined.

(** * Sort directions *)

Lemma lower_is_d (c : ascii) :
  ascii_to_lower c = "d"%char <-> c = "d"%char \/ c = "D"%char.
Proof.
  destruct c as [[] [] [] [] [] [] [] []]; vm_compute;
    (split; [intros H; first [discriminate H | auto]
            |intros [H|H]; first [discriminate H | reflexivity]]).
Qed.

Lemma lower_is_e (c : ascii) :
  ascii_to_lower c = "e"%char <-> c = "e"%char \/ c = "E"%char.
Proof.
  destruct c as [[] [] [] [] [] [] [] []]; vm_compute;
    (split; [intros H; first [discriminate H | auto]
            |intros [H|H]; first [discriminate H | reflexivity]]).
Qed.

Lemma lower_is_s (c : ascii) :
  ascii_to_lower c = "s"%char <-> c = "s"%char \/ c = "S"%char.
Proof.
  destruct c as [[] [] [] [] [] [] [] []]; vm_compute;
    (split; [intros H; first [discriminate H | auto]
            |intros [H|H]; first [discriminate H | reflexivity]]).
Qed.

Lemma lower_is_c (c : ascii) :
  ascii_to_lower c = "c"%char <-> c = "c"%char \/ c = "C"%char.
Proof.
  destruct c as [[] [] [] [] [] [] [] []]; vm_compute;
    (split; [intros H; first [discriminate H | auto]
            |intros [H|H]; first [discriminate H | reflexivity]]).
Qed.

(** X29. A property is sorted in descending order exactly when its
    direction is [desc] in any mix of upper and lower case; every other
    direction, [asc] or not, leaves it ascending and raises no error. *)
Theorem descending_in_any_case (name direction : string) :
  let descending :=
    exists d e s c : ascii,
      direction = String d (String e (String s (String c EmptyString)))
      /\ (d = "d" \/ d = "D")%char /\ (e = "e" \/ e = "E")%char
      /\ (s = "s" \/ s = "S")%char /\ (c = "c" \/ c = "C")%char in
  (descending -> sort_property (name, direction) = "-" ++ name)
  /\ (~ descending -> sort_property (name, direction) = name).
Proof.
  intros descending.
  assert (Hlower : to_lower_case direction = "desc" <-> descending).
  { unfold descending. split.
    - destruct direction as [|d [|e [|s [|c [|x rest]]]]]; simpl; try discriminate.
      intros [= Hd He Hs Hc]. exists d, e, s, c.
      rewrite <- lower_is_d, <- lower_is_e, <- lower_is_s, <- lower_is_c. auto.
    - intros (d & e & s & c & -> & Hd & He & Hs & Hc). simpl.
      apply lower_is_d in Hd. apply lower_is_e in He.
      apply lower_is_s in Hs. apply lower_is_c in Hc.
      rewrite Hd, He, Hs, Hc. reflexivity. }
  unfold sort_property.
  destruct (String.eqb_spec (to_lower_case direction) "desc") as [Heq|Hne].
  - split; [reflexivity|]. intros Hnot. exfalso. apply Hnot, Hlower, Heq.
  - split; [|reflexivity]. intros Hdesc. exfalso. apply Hne, Hlower, Hdesc.
Qed.

Lemma descending_in_any_case_witness :
  sort_property ("createdAt", "Desc") = "-createdAt"
  /\ sort_property ("createdAt", "descending") = "createdAt".
Proof.
  split.
  - apply (proj1 (descending_in_any_case "createdAt" "Desc")).
    exists "D"%char, "e"%char, "s"%char, "c"%char. repeat split; auto.
  - apply (proj2 (descending_in_any_case "createdAt" "descending")).
    intros (d & e & s & c & [=] & _).
Defined.
